(** * Peak-Detection-Visualization: streaming sessions and the client window

    A shallow embedding of [api/index.js] (the socket.io server: session
    registry, periodic emission, cursor arithmetic) and of
    [src/components/Chart.js] (the React component: sliding-window buffer,
    view projection, error state), with the properties of the design
    document stated over it.

    Layout: [JS] holds the fragment of ECMAScript the two files rely on
    (numbers, coercions, [Math.max], [Array.prototype.slice], completions);
    [Api] is the server; [Chart] is the client component. *)

From Stdlib Require Import ZArith QArith Ascii String.
From stdpp Require Import base option list gmap strings.

Local Open Scope Z_scope.

(* ===================================================================== *)
(** * The ECMAScript fragment                                            *)
(* ===================================================================== *)

Module JS.

(** ** Numbers

    A JS number is an IEEE-754 binary64.  The finite ones are rationals; they
    are carried as a [Q] in lowest terms ([Qred]), so that equal numbers are
    equal terms.  The two zeros are identified: nothing in the two source
    files tells [-0] from [+0] (no division, no [Object.is]; as an array
    index and as a truth value both are [0]). *)
Inductive number : Type :=
| NaN
| PosInf
| NegInf
| Fin (q : Q).

Definition of_Z (z : Z) : number := Fin (inject_Z z).
Definition of_nat (n : nat) : number := of_Z (Z.of_nat n).

(** [a / b] for [0 < b], rounded to the nearest integer, ties to even. *)
Definition div_half_even (a b : Z) : Z :=
  let q := a / b in
  match 2 * (a mod b) ?= b with
  | Lt => q
  | Gt => q + 1
  | Eq => if Z.even q then q else q + 1
  end.

(** The fraction [(a/b) / 2^e], kept as a pair of integers. *)
Definition scale2 (e a b : Z) : Z * Z :=
  if 0 <=? e then (a, b * 2 ^ e) else (a * 2 ^ (- e), b).

(** [binade a b] is the [p] with [2^p <= a/b < 2^(p+1)], for [0 < a], [0 < b]. *)
Definition binade (a b : Z) : Z :=
  let p := Z.log2 a - Z.log2 b in
  let '(x, y) := scale2 p a b in
  if y <=? x then p else p - 1.

(** Round-to-nearest-even of the positive rational [a/b] to binary64:
    53 significant bits, least exponent of the last place -1074, overflow
    to infinity from [2^1024]. *)
Definition round_pos (a b : Z) : number :=
  let e := Z.max (binade a b - 52) (-1074) in
  let '(x, y) := scale2 e a b in
  let m := div_half_even x y in
  if 1024 <=? Z.log2 m + e then PosInf
  else Fin (Qred (if 0 <=? e then inject_Z (m * 2 ^ e)
                  else m # Z.to_pos (2 ^ (- e)))).

Definition neg (x : number) : number :=
  match x with
  | NaN => NaN
  | PosInf => NegInf
  | NegInf => PosInf
  | Fin q => Fin (Qred (- q))
  end.

Definition round (q : Q) : number :=
  match Qnum q with
  | Z0 => Fin 0
  | Zpos n => round_pos (Zpos n) (Zpos (Qden q))
  | Zneg n => neg (round_pos (Zpos n) (Zpos (Qden q)))
  end.

(** [x + y] *)
Definition add (x y : number) : number :=
  match x, y with
  | NaN, _ | _, NaN => NaN
  | PosInf, NegInf | NegInf, PosInf => NaN
  | PosInf, _ | _, PosInf => PosInf
  | NegInf, _ | _, NegInf => NegInf
  | Fin a, Fin b => round (a + b)
  end.

(** [x - y] *)
Definition sub (x y : number) : number := add x (neg y).

(** [x % y]: the remainder has the sign of the dividend and is exact. *)
Definition rem (x y : number) : number :=
  match x, y with
  | NaN, _ | _, NaN => NaN
  | PosInf, _ | NegInf, _ => NaN
  | Fin a, PosInf | Fin a, NegInf => Fin a
  | Fin a, Fin b =>
      if Qnum b =? 0 then NaN
      else
        let t := Qnum (a / b) ÷ Zpos (Qden (a / b)) in
        Fin (Qred (a - b * inject_Z t))
  end.

(** [x < y]; false as soon as one side is [NaN]. *)
Definition lt (x y : number) : bool :=
  match x, y with
  | NaN, _ | _, NaN => false
  | _, NegInf => false
  | NegInf, _ => true
  | PosInf, _ => false
  | _, PosInf => true
  | Fin a, Fin b => match a ?= b with Lt => true | _ => false end
  end%Q.

(** [Math.max(...l)]: [-Infinity] for no argument, [NaN] as soon as one
    argument is [NaN]. *)
Definition max2 (hi x : number) : number :=
  match hi, x with
  | NaN, _ | _, NaN => NaN
  | _, _ => if lt hi x then x else hi
  end.

Definition Math_max (l : list number) : number := fold_left max2 l NegInf.

(** ** Strings to numbers ([StringToNumber])

    Strings are sequences of bytes (UTF-8).  White space is stripped at both
    ends; the empty string is [0]; a [StrNumericLiteral] is a signed decimal
    literal (digits, fraction, exponent, or [Infinity]) or an unsigned
    [0x]/[0o]/[0b] integer literal; everything else is [NaN]. *)
Definition code (c : ascii) : Z := Z.of_N (N_of_ascii c).

Definition white_space : list (list Z) :=
  [ [9]; [10]; [11]; [12]; [13]; [32];
    [194; 160]; [225; 154; 128];
    [226; 128; 128]; [226; 128; 129]; [226; 128; 130]; [226; 128; 131];
    [226; 128; 132]; [226; 128; 133]; [226; 128; 134]; [226; 128; 135];
    [226; 128; 136]; [226; 128; 137]; [226; 128; 138];
    [226; 128; 168]; [226; 128; 169]; [226; 128; 175]; [226; 129; 159];
    [227; 128; 128]; [239; 187; 191] ].

Fixpoint strip_prefix (p l : list Z) : option (list Z) :=
  match p, l with
  | [], _ => Some l
  | a :: p', b :: l' => if a =? b then strip_prefix p' l' else None
  | _ :: _, [] => None
  end.

Definition strip_one (ws : list (list Z)) (l : list Z) : option (list Z) :=
  fold_right (fun p r => match strip_prefix p l with Some l' => Some l' | None => r end)
             None ws.

Fixpoint strip_ws (ws : list (list Z)) (fuel : nat) (l : list Z) : list Z :=
  match fuel with
  | O => l
  | S fuel' =>
      match strip_one ws l with
      | Some l' => strip_ws ws fuel' l'
      | None => l
      end
  end.

Definition trim (l : list Z) : list Z :=
  let l1 := strip_ws white_space (length l) l in
  let r := strip_ws (map (@rev Z) white_space) (length l1) (rev l1) in
  rev r.

Definition digit_of (base c : Z) : option Z :=
  let d :=
    if (48 <=? c) && (c <=? 57) then c - 48
    else if (97 <=? c) && (c <=? 102) then c - 87
    else if (65 <=? c) && (c <=? 70) then c - 55
    else 16 in
  if d <? base then Some d else None.

(** Reads the longest run of digits: accumulated value, number of digits
    read, rest of the input. *)
Fixpoint digits (base : Z) (l : list Z) (acc : Z) (n : Z) : Z * Z * list Z :=
  match l with
  | [] => (acc, n, [])
  | c :: l' =>
      match digit_of base c with
      | Some d => digits base l' (base * acc + d) (n + 1)
      | None => (acc, n, l)
      end
  end.

Definition of_ratio (a : Z) (e10 : Z) : number :=
  round (if 0 <=? e10 then inject_Z (a * 10 ^ e10)
         else a # Z.to_pos (10 ^ (- e10))).

Definition exponent_part (l : list Z) : option Z :=
  match l with
  | [] => Some 0
  | c :: l1 =>
      if (c =? 101) || (c =? 69) then
        let '(sg, l2) :=
          match l1 with
          | 43 :: l2 => (1, l2)
          | 45 :: l2 => (-1, l2)
          | _ => (1, l1)
          end in
        match digits 10 l2 0 0 with
        | (v, n, []) => if 0 <? n then Some (sg * v) else None
        | _ => None
        end
      else None
  end.

Definition unsigned_decimal (l : list Z) : number :=
  if decide (l = map code (list_ascii_of_string "Infinity")) then PosInf
  else
    let '(i, ni, l1) := digits 10 l 0 0 in
    let '(m, nf, l2) :=
      match l1 with
      | 46 :: l1' => let '(m, n, l2) := digits 10 l1' i 0 in (m, n, l2)
      | _ => (i, 0, l1)
      end in
    if 0 <? ni + nf then
      match exponent_part l2 with
      | Some e => of_ratio m (e - nf)
      | None => NaN
      end
    else NaN.

Definition non_decimal (base : Z) (l : list Z) : number :=
  match digits base l 0 0 with
  | (v, n, []) => if 0 <? n then round (inject_Z v) else NaN
  | _ => NaN
  end.

Definition StringToNumber (s : string) : number :=
  match trim (map code (list_ascii_of_string s)) with
  | [] => of_Z 0
  | 48 :: 120 :: l | 48 :: 88 :: l => non_decimal 16 l
  | 48 :: 111 :: l | 48 :: 79 :: l => non_decimal 8 l
  | 48 :: 98 :: l | 48 :: 66 :: l => non_decimal 2 l
  | 43 :: l => unsigned_decimal l
  | 45 :: l => neg (unsigned_decimal l)
  | l => unsigned_decimal l
  end.

(** ** Values and coercions

    The values that reach the two files: [undefined], [null], booleans,
    numbers and strings. *)
Inductive val : Type :=
| VUndefined
| VNull
| VBool (b : bool)
| VNum (n : number)
| VStr (s : string).

Definition ToNumber (v : val) : number :=
  match v with
  | VUndefined => NaN
  | VNull => of_Z 0
  | VBool b => if b then of_Z 1 else of_Z 0
  | VNum n => n
  | VStr s => StringToNumber s
  end.

Definition is_zero (n : number) : bool :=
  match n with
  | Fin q => Qnum q =? 0
  | _ => false
  end.

(** Truthiness: [undefined], [null], [false], [0], [NaN] and the empty
    string are falsy. *)
Definition ToBoolean (v : val) : bool :=
  match v with
  | VUndefined | VNull => false
  | VBool b => b
  | VNum NaN => false
  | VNum n => negb (is_zero n)
  | VStr s => negb (String.eqb s EmptyString)
  end.

(** [a || b] *)
Definition or_else (a b : val) : val := if ToBoolean a then a else b.

(** [v > n] with a number on the right: the left side is coerced with
    [ToNumber] and the comparison is numeric. *)
Definition gt_num (v : val) (n : number) : bool := lt n (ToNumber v).

(** ** Arrays

    Arrays are lists.  [a[i]] with a number as key is the element at [i]
    when [i] is an integer within the bounds, and [undefined] for every
    other number (negative, fractional, [NaN], infinite, too large). *)
Definition index_of (i : number) : option nat :=
  match i with
  | Fin q =>
      if (Zpos (Qden q) =? 1) && (0 <=? Qnum q) then Some (Z.to_nat (Qnum q))
      else None
  | _ => None
  end.

Definition get {A} (a : list A) (i : number) : option A :=
  i' ← index_of i; a !! i'.

(** [ToIntegerOrInfinity] followed by the clamping of
    [Array.prototype.slice(start)] against the length [len]: the index of
    the first element kept. *)
Definition slice_from (len : Z) (start : number) : Z :=
  match start with
  | NaN => 0
  | NegInf => 0
  | PosInf => len
  | Fin q =>
      let r := Qnum q ÷ Zpos (Qden q) in
      if r <? 0 then Z.max (len + r) 0 else Z.min r len
  end.

(** [a.slice(start)]: a new array. *)
Definition slice {A} (a : list A) (start : number) : list A :=
  drop (Z.to_nat (slice_from (Z.of_nat (length a)) start)) a.

(** The last [k] elements of an array ([a.slice(max(a.length - k, 0))]). *)
Definition last_n {A} (k : nat) (a : list A) : list A := drop (length a - k) a.

(** Every array holds fewer than [2^32] elements. *)
Definition array_length_ok {A} (a : list A) : Prop :=
  Z.of_nat (length a) < 2 ^ 32.

(** ** Completions

    A call either returns or throws. *)
Inductive error : Type :=
| TypeError (property : string)   (* a property read on [undefined] *)
| Error (message : string).       (* [new Error(message)] *)

Inductive completion (A : Type) : Type :=
| Return (a : A)
| Throw (e : error).
Arguments Return {A} a.
Arguments Throw {A} e.

Definition bind {A B} (c : completion A) (k : A -> completion B) : completion B :=
  match c with
  | Return a => k a
  | Throw e => Throw e
  end.

#[global] Instance completion_ret : MRet completion := @Return.
#[global] Instance completion_bind : MBind completion :=
  fun A B k c => bind c k.

End JS.



(* ===================================================================== *)
(** * The server: [api/index.js]                                         *)
(* ===================================================================== *)

Module Api.
Import JS.

Definition INTERVAL : Z := 2000.

(** One entry of [data.json]: two arrays of numbers read with one cursor. *)
Record SensorSeries : Type := {
  readings : list number;
  zScores : list number
}.

(** The [response] object of [getNextReading]. *)
Record Reading : Type := {
  timestamp : Z;
  value : val;
  zscore : val
}.

(** An entry of [io.connections]; [interval] is the handle that
    [setInterval] returned. *)
Record Connection : Type := {
  sensorId : number;
  index : number;
  interval : nat
}.

(** The server process.
    - [connections] is the object [io.connections]; a key mapped to [None]
      is a key whose value is [undefined] (what the disconnect handler
      leaves behind).
    - [timers] are the intervals that are still set, each with the
      connection id (which is also the id of the socket) that its callback
      [() => emitData(connectionId, socket)] closes over; [next_timer] is
      the next fresh handle.
    - [emitted] logs the [socket.emit("reading", ...)] calls in order:
      the id of the socket and the payload. *)
Record Server : Type := {
  connections : gmap string (option Connection);
  timers : gmap nat string;
  next_timer : nat;
  emitted : list (string * Reading)
}.

Definition init : Server :=
  {| connections := ∅; timers := ∅; next_timer := 0%nat; emitted := [] |}.

(** [io.connections[connectionId]]: [None] is [undefined], whether the key
    is absent or holds [undefined].  Connection ids are the socket ids that
    socket.io draws at random; none is the name of a property that the
    object inherits, so an absent key reads as [undefined]. *)
Definition conn_of (st : Server) (connectionId : string) : option Connection :=
  mjoin (connections st !! connectionId).

(** [a[i]] as a value: [undefined] outside the array. *)
Definition element (a : list number) (i : number) : val :=
  from_option VNum VUndefined (get a i).

(** [Number(socket.handshake.query['sensor'])]; an absent parameter is
    [undefined]. *)
Definition Number (sensor : option string) : number :=
  ToNumber (from_option VStr VUndefined sensor).

(** [getNextReading(data, index)] with [Date.now() = now]; [data] is [None]
    when the caller passed [undefined].  Returns [(newIndex, response)].
    The function also leaves [response] in a global of that name, which
    nothing reads. *)
Definition getNextReading (data : option SensorSeries) (index : number) (now : Z)
  : completion (number * Reading) :=
  match data with
  | None => Throw (TypeError "readings")
  | Some data =>
      let response :=
        {| timestamp := now;
           value := element (readings data) index;
           zscore := element (zScores data) index |} in
      Return (rem (add index (of_Z 1)) (of_nat (length (readings data))), response)
  end.

Section Server.

(** [sensorData = require('./data.json')]: the file is not part of the
    sources at hand, so the table is a parameter. *)
Variable sensorData : list SensorSeries.

(** [emitData(connectionId, socket)], the body of the interval callback;
    [socket] is given by its id.  The [console.log] of [conn.sensorId] and
    [conn.index] is where an [undefined] [conn] throws.  [conn] aliases the
    object stored in [io.connections], so the final assignment to
    [conn.index] updates the registry entry. *)
Definition emitData (connectionId socket : string) (now : Z) (st : Server)
  : completion Server :=
  match conn_of st connectionId with
  | None => Throw (TypeError "sensorId")
  | Some conn =>
      '(newIndex, response) ←
        getNextReading (get sensorData (sub (sensorId conn) (of_Z 1))) (index conn) now;
      Return
        {| connections :=
             <[connectionId :=
                 Some {| sensorId := sensorId conn;
                         index := newIndex;
                         interval := interval conn |}]> (connections st);
           timers := timers st;
           next_timer := next_timer st;
           emitted := emitted st ++ [(socket, response)] |}
  end.

(** The ['connection'] handler for a socket with id [connectionId]. *)
Definition onConnect (connectionId : string) (sensor : option string) (st : Server)
  : completion Server :=
  let sensorId := Number sensor in
  let handle := next_timer st in
  Return
    {| connections :=
         <[connectionId :=
             Some {| sensorId := sensorId; index := of_Z 0; interval := handle |}]>
           (connections st);
       timers := <[handle := connectionId]> (timers st);
       next_timer := S handle;
       emitted := emitted st |}.

(** The ['disconnect'] handler of that socket. *)
Definition onDisconnect (connectionId : string) (st : Server) : completion Server :=
  match conn_of st connectionId with
  | None => Throw (TypeError "interval")
  | Some conn =>
      Return
        {| connections := <[connectionId := None]> (connections st);
           timers := delete (interval conn) (timers st);
           next_timer := next_timer st;
           emitted := emitted st |}
  end.

(** The scheduler runs the callback of an interval that is still set; a
    cleared handle never fires. *)
Definition fire (handle : nat) (now : Z) (st : Server) : completion Server :=
  match timers st !! handle with
  | Some connectionId => emitData connectionId connectionId now st
  | None => Return st
  end.

(** Successive firings of [emitData] for one connection, one per clock
    value; stops at the first that throws. *)
Fixpoint emissions (connectionId : string) (clock : list Z) (st : Server)
  : completion Server :=
  match clock with
  | [] => Return st
  | now :: clock' =>
      st' ← emitData connectionId connectionId now st;
      emissions connectionId clock' st'
  end.

(** The states the process goes through.  socket.io gives every connection
    an id of its own, so the connection handler runs for a key the registry
    does not have yet; the disconnect handler of a socket and the callbacks
    of the intervals that are set run in between.  A handler that throws is
    not a step. *)
Inductive reachable : Server -> Prop :=
| reachable_init : reachable init
| reachable_connect st st' connectionId sensor :
    reachable st ->
    connections st !! connectionId = None ->
    onConnect connectionId sensor st = Return st' ->
    reachable st'
| reachable_disconnect st st' connectionId :
    reachable st ->
    onDisconnect connectionId st = Return st' ->
    reachable st'
| reachable_fire st st' handle now :
    reachable st ->
    fire handle now st = Return st' ->
    reachable st'.

End Server.

(** The [(value, zscore)] pairs sent so far, oldest first. *)
Definition pairs (st : Server) : list (val * val) :=
  (fun e => (value e.2, zscore e.2)) <$> emitted st.

(** The process after a handler ran from [st], with the exception that
    escaped it, if any.  In the three handlers every assignment comes after
    the last expression that can throw, so a handler that throws leaves the
    server as it found it. *)
Definition outcome (st : Server) (c : completion Server) : Server * option error :=
  match c with
  | Return st' => (st', None)
  | Throw e => (st, Some e)
  end.

(** The reading at position [j] of the endless repetition of a series,
    stamped [now]. *)
Definition cyclic_reading (data : SensorSeries) (j : nat) (now : Z) : Reading :=
  let i := of_nat (j mod length (readings data)) in
  {| timestamp := now;
     value := element (readings data) i;
     zscore := element (zScores data) i |}.

(** A table of three short series, for examples. *)
Definition sample_data : list SensorSeries :=
  [ {| readings := [of_Z 10; of_Z 30; of_Z 20]; zScores := [of_Z 0; of_Z 1; of_Z 0] |};
    {| readings := [of_Z 5; of_Z 6]; zScores := [of_Z 0; of_Z 0] |};
    {| readings := [of_Z 7]; zScores := [of_Z 1] |} ].

(** The server after one client connected as ["a"] to sensor 1, and after
    that client left. *)
Definition sample_live : Server :=
  {| connections :=
       {[ "a" := Some {| sensorId := of_Z 1; index := of_Z 0; interval := 0%nat |} ]};
     timers := {[ 0%nat := "a" ]};
     next_timer := 1%nat;
     emitted := [] |}.

(** The server after a client connected as ["a"] without a [sensor]
    parameter. *)
Definition sample_unbound : Server :=
  {| connections :=
       {[ "a" := Some {| sensorId := NaN; index := of_Z 0; interval := 0%nat |} ]};
     timers := {[ 0%nat := "a" ]};
     next_timer := 1%nat;
     emitted := [] |}.

(** The server with two clients, ["a"] on sensor 1 and ["b"] on sensor 2,
    and the server after the first firing for ["a"] alone. *)
Definition sample_two : Server :=
  {| connections :=
       {[ "a" := Some {| sensorId := of_Z 1; index := of_Z 0; interval := 0%nat |};
          "b" := Some {| sensorId := of_Z 2; index := of_Z 0; interval := 1%nat |} ]};
     timers := {[ 0%nat := "a"; 1%nat := "b" ]};
     next_timer := 2%nat;
     emitted := [] |}.

Definition sample_streaming : Server :=
  {| connections :=
       {[ "a" := Some {| sensorId := of_Z 1; index := of_Z 1; interval := 0%nat |} ]};
     timers := {[ 0%nat := "a" ]};
     next_timer := 1%nat;
     emitted :=
       [("a", {| timestamp := 1000; value := VNum (of_Z 10); zscore := VNum (of_Z 0) |})] |}.

(** A table whose only series has no readings. *)
Definition sample_empty_data : list SensorSeries :=
  [ {| readings := []; zScores := [] |} ].

Definition sample_left : Server :=
  {| connections := {[ "a" := None ]};
     timers := ∅;
     next_timer := 1%nat;
     emitted := [] |}.

End Api.

(* ===================================================================== *)
(** * The client: [src/components/Chart.js]                              *)
(* ===================================================================== *)

Module Chart.
Import JS.

Definition MAX_POINTS_TO_STORE : Z := 50.
Definition DEFAULT_X_TICKS : Z := 20.
Definition SOCKETIO_ERRORS : list string :=
  ["reconnect_error"; "connect_error"; "connect_timeout"; "connect_failed"; "error"].

(** What [JSON.parse(response)] yields for a reading sent by the server, and
    also a point handed to the chart (a point of the z-score series has no
    [zscore] property: it reads as [undefined]). *)
Record Point : Type := {
  timestamp : val;
  value : val;
  zscore : val
}.

(** [this.props]: [sensorId] and ['x-ticks'], [undefined] when not passed. *)
Record Props : Type := {
  sensorId : val;
  x_ticks : val
}.

(** [new Date(t).toLocaleTimeString()]: the text depends on the locale and
    the time zone of the browser, so it is kept as the timestamp it was
    made from. *)
Inductive TimeLabel : Type :=
| toLocaleTimeString (t : val).

(** [this.state]; [lastTimestamp] is [None] while it is [null]. *)
Record State : Type := {
  data : list Point;
  lastTimestamp : option TimeLabel;
  connected : bool;
  error : val
}.

Definition initial : State :=
  {| data := []; lastTimestamp := None; connected := false; error := VStr EmptyString |}.

(** The object passed to (or returned to) [setState]: the properties it
    has. *)
Record Patch : Type := {
  patch_data : option (list Point);
  patch_lastTimestamp : option (option TimeLabel);
  patch_connected : option bool;
  patch_error : option val
}.

(** [setState] merges the properties of the patch into the state and keeps
    the others. *)
Definition setState (p : Patch) (st : State) : State :=
  {| data := default (data st) (patch_data p);
     lastTimestamp := default (lastTimestamp st) (patch_lastTimestamp p);
     connected := default (connected st) (patch_connected p);
     error := default (error st) (patch_error p) |}.

(** [setError(type, error)]; [error] is given by the text of
    [error.toString()]. *)
Definition setError (type error : string) (st : State) : State :=
  setState
    {| patch_data := Some [];
       patch_lastTimestamp := None;
       patch_connected := Some false;
       patch_error := Some (VStr (error +:+ " | " +:+ type)) |}
    st.

(** The function that [storeReading] passes to [setState].  [data] is the
    array of [prevState] itself and [push] grows it in place: the first
    component of the result is that array after the call, the second the
    object returned.  [data[data.length - 1]] is the last element. *)
Definition storeReading_updater (reading : Point) (prevState : State)
  : completion (list Point * Patch) :=
  let data0 := data prevState in
  let pointsToStore :=
    Math_max [sub (of_nat (length data0)) (of_Z MAX_POINTS_TO_STORE); of_Z 0] in
  let data1 := data0 ++ [reading] in
  match last data1 with
  | None => Throw (TypeError "timestamp")
  | Some p =>
      Return
        (data1,
         {| patch_data := Some (slice data1 pointsToStore);
            patch_lastTimestamp := Some (Some (toLocaleTimeString (timestamp p)));
            patch_connected := Some true;
            patch_error := Some (VBool false) |})
  end.

(** The state once React has applied the update of [storeReading].  The
    handler then calls [updateChart], which reads [this.state] as it is at
    that moment; [updateChart] below is a function of the state it reads. *)
Definition storeReading (reading : Point) (st : State) : completion State :=
  '(_, patch) ← storeReading_updater reading st;
  Return (setState patch st).

(** [storeReading] for each reading of [rs] in turn. *)
Fixpoint storeReadings (rs : list Point) (st : State) : completion State :=
  match rs with
  | [] => Return st
  | r :: rs' => st' ← storeReading r st; storeReadings rs' st'
  end.

(** The three values [updateChart] computes from [this.state.data] and
    [this.props['x-ticks']]. *)
Definition xTicks (props : Props) (st : State) : number :=
  Math_max
    [sub (of_nat (length (data st)))
         (ToNumber (or_else (x_ticks props) (VNum (of_Z DEFAULT_X_TICKS))));
     of_Z 0].

Definition visible (props : Props) (st : State) : list Point :=
  slice (data st) (xTicks props st).

Definition highestValueInView (props : Props) (st : State) : number :=
  Math_max ((fun p => ToNumber (value p)) <$> visible props st).

Definition zLine (props : Props) (st : State) : list Point :=
  (fun p =>
     {| timestamp := timestamp p;
        value := VNum (if ToBoolean (zscore p)
                       then highestValueInView props st else of_Z 0);
        zscore := VUndefined |})
  <$> visible props st.

(** The calls made on the chart helper, in order. *)
Inductive ChartCall : Type :=
| adjustAxes (points : list Point)
| setSeriesData (series : string) (points : list Point) (animate : bool).

Definition updateChart (props : Props) (st : State) : list ChartCall :=
  [ adjustAxes (visible props st);
    setSeriesData "sensor-data" (visible props st) false;
    setSeriesData "z-score" (zLine props st) false ].

(** What [componentDidMount] sets up when it does not throw: the series
    added to the chart, the [sensor] parameter of the socket URL and the
    event names a handler is registered for. *)
Record Mounted : Type := {
  series : list string;
  sensor : val;
  listening : list string
}.

Definition componentDidMount (props : Props) : completion Mounted :=
  match sensorId props with
  | VUndefined =>
      Throw (Error "You have to pass 'sensorId' prop to Chart component")
  | _ =>
      if gt_num (x_ticks props) (of_Z MAX_POINTS_TO_STORE) then
        Throw (Error "You cannot display more than 50 'x-ticks'. ")
      else
        Return {| series := ["sensor"; "zline"];
                  sensor := sensorId props;
                  listening := "reading" :: SOCKETIO_ERRORS |}
  end.

(** The events of the socket and what the component does on each. *)
Inductive Event : Type :=
| reading_event (reading : Point)
| error_event (type error : string).

Definition handle (ev : Event) (st : State) : completion State :=
  match ev with
  | reading_event r => storeReading r st
  | error_event type error => Return (setError type error st)
  end.

Fixpoint handle_all (evs : list Event) (st : State) : completion State :=
  match evs with
  | [] => Return st
  | ev :: evs' => st' ← handle ev st; handle_all evs' st'
  end.

Definition is_error_event (ev : Event) : Prop :=
  match ev with
  | error_event _ _ => True
  | reading_event _ => False
  end.

(** The readings received since the last error event, oldest first, on top
    of the readings [acc] that were there. *)
Fixpoint readings_since_error (evs : list Event) (acc : list Point) : list Point :=
  match evs with
  | [] => acc
  | reading_event r :: evs' => readings_since_error evs' (acc ++ [r])
  | error_event _ _ :: evs' => readings_since_error evs' []
  end.

(** The readings received so far, oldest first. *)
Definition received (evs : list Event) : list Point :=
  omap (fun ev => match ev with
                  | reading_event r => Some r
                  | error_event _ _ => None
                  end) evs.

(** What [render] puts on the page: the class and the text of the status
    badge with the sensor shown after it, the child of the error line, the
    class of the line under it with the number of readings announced and the
    time of the last reading, and the class of the chart container. *)
Record View : Type := {
  status_class : string;
  status_text : string;
  status_sensor : val;
  error_line : val;
  timestamp_class : string;
  showing_last : val;
  last_reading : option TimeLabel;
  container_class : string
}.

Definition render (props : Props) (st : State) : View :=
  {| status_class := "status " +:+ (if connected st then "success-bg" else "danger-bg");
     status_text := if connected st then "Connected to" else "Disconnected from";
     status_sensor := sensorId props;
     error_line := error st;
     timestamp_class := "timestamp " +:+ (if connected st then "success" else "danger");
     showing_last := or_else (x_ticks props) (VNum (of_Z DEFAULT_X_TICKS));
     last_reading := lastTimestamp st;
     container_class :=
       "chart-container " +:+ (if ToBoolean (error st) then "faded" else EmptyString) |}.

(** The second chart of [index.js]: [<Chart sensorId="2" x-ticks="20" />]. *)
Definition sample_props : Props :=
  {| sensorId := VStr "2"; x_ticks := VStr "20" |}.

(** [n] readings with timestamps and values [1 .. n], all flagged as peaks,
    for examples. *)
Definition sample_points (n : nat) : list Point :=
  (fun i => {| timestamp := VNum (of_nat i);
               value := VNum (of_nat i);
               zscore := VNum (of_Z 1) |}) <$> seq 1 n.

(** A connected component whose only reading came without a [value]. *)
Definition sample_gap : State :=
  {| data := [ {| timestamp := VNum (of_Z 1); value := VUndefined; zscore := VNum (of_Z 1) |} ];
     lastTimestamp := Some (toLocaleTimeString (VNum (of_Z 1)));
     connected := true;
     error := VBool false |}.

(** A connected component whose buffer holds 50 points. *)
Definition sample_state : State :=
  {| data := sample_points 50;
     lastTimestamp := Some (toLocaleTimeString (VNum (of_Z 50)));
     connected := true;
     error := VBool false |}.

End Chart.

(* ===================================================================== *)
(** * Facts about the ECMAScript fragment                                *)
(* ===================================================================== *)

Module JSFacts.
Import JS.

Lemma Qred_ratio (z : Z) (k : positive) :
  Qred (z * Zpos k # k) = inject_Z z.
Proof.
  rewrite <- (inject_Z_Qred z). apply Qred_complete.
  unfold Qeq, inject_Z; simpl. lia.
Qed.

Lemma div_half_even_1 (a : Z) : div_half_even a 1 = a.
Proof.
  unfold div_half_even. rewrite Z.mod_1_r, Z.div_1_r. reflexivity.
Qed.

Lemma binade_int (z : Z) : 0 < z -> binade z 1 = Z.log2 z.
Proof.
  intros Hz. unfold binade, scale2. simpl (Z.log2 1). rewrite Z.sub_0_r.
  pose proof (Z.log2_nonneg z) as Hn.
  destruct (Z.leb_spec 0 (Z.log2 z)); [|lia].
  pose proof (Z.log2_spec z Hz) as [Hlo _].
  destruct (Z.leb_spec (1 * 2 ^ Z.log2 z) z); [reflexivity|lia].
Qed.

(** Positive integers below [2^53] are binary64 numbers: rounding keeps
    them. *)
Lemma round_pos_int (z : Z) :
  0 < z < 2 ^ 53 -> round_pos z 1 = of_Z z.
Proof.
  intros [Hz Hlt]. unfold round_pos. rewrite binade_int by assumption.
  assert (Hp : 0 <= Z.log2 z < 53).
  { split; [apply Z.log2_nonneg|]. apply Z.log2_lt_pow2; assumption. }
  rewrite Z.max_l by lia.
  unfold scale2.
  destruct (Z.leb_spec 0 (Z.log2 z - 52)) as [He|He].
  - assert (Z.log2 z - 52 = 0) as -> by lia.
    change (1 * 2 ^ 0) with 1. rewrite div_half_even_1.
    rewrite Z.add_0_r.
    destruct (Z.leb_spec 1024 (Z.log2 z)); [lia|].
    change (2 ^ 0) with 1. rewrite Z.mul_1_r. unfold of_Z.
    now rewrite inject_Z_Qred.
  - rewrite div_half_even_1.
    set (k := - (Z.log2 z - 52)).
    assert (Hk : 0 < k) by (unfold k; lia).
    rewrite Z.log2_mul_pow2 by lia.
    destruct (Z.leb_spec 1024 (k + Z.log2 z + (Z.log2 z - 52))); [lia|].
    unfold of_Z. f_equal.
    assert (Hpow : 0 < 2 ^ k) by (apply Z.pow_pos_nonneg; lia).
    destruct (2 ^ k) as [|pk|pk] eqn:E; try lia.
    simpl Z.to_pos. apply Qred_ratio.
Qed.

Lemma neg_int (a : Z) : neg (of_Z a) = of_Z (- a).
Proof.
  unfold neg, of_Z. f_equal.
  change (- inject_Z a)%Q with (inject_Z (- a)). apply inject_Z_Qred.
Qed.

Lemma round_int (z : Z) :
  - 2 ^ 53 < z < 2 ^ 53 -> round (inject_Z z) = of_Z z.
Proof.
  intros Hz. unfold round, inject_Z; simpl Qnum; simpl Qden.
  destruct z as [|p|p].
  - reflexivity.
  - apply round_pos_int. lia.
  - rewrite round_pos_int by lia. apply neg_int.
Qed.

Lemma add_int (a b : Z) :
  - 2 ^ 53 < a + b < 2 ^ 53 -> add (of_Z a) (of_Z b) = of_Z (a + b).
Proof.
  intros H. unfold add, of_Z.
  replace (inject_Z a + inject_Z b)%Q with (inject_Z (a + b)).
  - apply round_int, H.
  - unfold inject_Z, Qplus; simpl. f_equal. lia.
Qed.

Lemma sub_int (a b : Z) :
  - 2 ^ 53 < a - b < 2 ^ 53 -> sub (of_Z a) (of_Z b) = of_Z (a - b).
Proof.
  intros H. unfold sub. rewrite neg_int. apply add_int. lia.
Qed.

Lemma rem_int (a n : Z) :
  0 <= a -> 0 < n -> rem (of_Z a) (of_Z n) = of_Z (a mod n).
Proof.
  intros Ha Hn. unfold rem, of_Z.
  destruct n as [|p|p]; try lia.
  simpl (Qnum (inject_Z (Z.pos p)) =? 0).
  cbv beta iota.
  replace (Qnum (inject_Z a / inject_Z (Z.pos p)) ÷
           Z.pos (Qden (inject_Z a / inject_Z (Z.pos p)))) with (a ÷ Z.pos p).
  - rewrite <- (inject_Z_Qred (a mod Z.pos p)). f_equal. apply Qred_complete.
    unfold Qeq, Qminus, Qplus, Qopp, Qmult, inject_Z; simpl Qnum; simpl Qden.
    rewrite <- Z.rem_mod_nonneg by lia.
    pose proof (Z.quot_rem' a (Z.pos p)). lia.
  - unfold Qdiv, Qmult, Qinv, inject_Z; simpl.
    rewrite Z.mul_1_r. reflexivity.
Qed.

Lemma lt_int (a b : Z) : lt (of_Z a) (of_Z b) = (a <? b).
Proof.
  unfold lt, of_Z, inject_Z, Qcompare; simpl Qnum; simpl Qden.
  rewrite !Z.mul_1_r. unfold Z.ltb. reflexivity.
Qed.

Lemma max2_int (a b : Z) :
  max2 (of_Z a) (of_Z b) = of_Z (Z.max a b).
Proof.
  pose proof (lt_int a b) as H. unfold of_Z in *. unfold max2. rewrite H.
  destruct (Z.ltb_spec a b).
  - now rewrite Z.max_r by lia.
  - now rewrite Z.max_l by lia.
Qed.

Lemma Math_max_int2 (a b : Z) :
  Math_max [of_Z a; of_Z b] = of_Z (Z.max a b).
Proof.
  unfold Math_max; simpl fold_left.
  change (max2 NegInf (of_Z a)) with (of_Z a). apply max2_int.
Qed.

Lemma index_of_int (i : Z) :
  index_of (of_Z i) = if 0 <=? i then Some (Z.to_nat i) else None.
Proof. reflexivity. Qed.

Lemma get_int {A} (a : list A) (i : Z) :
  0 <= i -> get a (of_Z i) = a !! Z.to_nat i.
Proof.
  intros Hi. unfold get. rewrite index_of_int.
  destruct (Z.leb_spec 0 i); [reflexivity|lia].
Qed.

Lemma slice_int {A} (a : list A) (k : Z) :
  0 <= k -> slice a (of_Z k) = drop (Z.to_nat k) a.
Proof.
  intros Hk. unfold slice, slice_from, of_Z, inject_Z; simpl Qnum; simpl Qden.
  rewrite Z.quot_1_r.
  destruct (Z.ltb_spec k 0); [lia|].
  destruct (Z.le_gt_cases k (Z.of_nat (length a))).
  - now rewrite Z.min_l by lia.
  - rewrite Z.min_r by lia. rewrite Nat2Z.id.
    rewrite !drop_ge; [reflexivity|lia|lia].
Qed.

(** *** Signs survive rounding *)

Lemma Qred_sign (q : Q) :
  (0 <= Qnum q -> 0 <= Qnum (Qred q)) /\ (Qnum q <= 0 -> Qnum (Qred q) <= 0).
Proof.
  pose proof (Qred_correct q) as H. unfold Qeq in H.
  destruct q as [n d], (Qred (n # d)) as [n' d']; simpl in *. split; nia.
Qed.

Lemma div_half_even_nonneg (x y : Z) : 0 <= x -> 0 < y -> 0 <= div_half_even x y.
Proof.
  intros Hx Hy. unfold div_half_even.
  assert (0 <= x / y) by (apply Z.div_pos; lia).
  destruct (2 * (x mod y) ?= y); [destruct (Z.even (x / y))|..]; lia.
Qed.

Lemma scale2_pos (e a b : Z) :
  0 < a -> 0 < b -> 0 <= (scale2 e a b).1 /\ 0 < (scale2 e a b).2.
Proof.
  intros Ha Hb. unfold scale2. destruct (Z.leb_spec 0 e); simpl.
  - assert (0 < 2 ^ e) by (apply Z.pow_pos_nonneg; lia). nia.
  - assert (0 < 2 ^ (- e)) by (apply Z.pow_pos_nonneg; lia). nia.
Qed.

Lemma round_pos_sign (a b : Z) :
  0 < a -> 0 < b ->
  round_pos a b = PosInf \/ exists q, round_pos a b = Fin q /\ 0 <= Qnum q.
Proof.
  intros Ha Hb. unfold round_pos.
  set (e := Z.max (binade a b - 52) (-1074)).
  pose proof (scale2_pos e a b Ha Hb) as [Hx Hy].
  destruct (scale2 e a b) as [x y]; simpl in Hx, Hy.
  pose proof (div_half_even_nonneg x y Hx Hy) as Hm.
  destruct (1024 <=? Z.log2 (div_half_even x y) + e); [now left|right].
  eexists; split; [reflexivity|]. apply Qred_sign.
  destruct (Z.leb_spec 0 e); simpl.
  - assert (0 < 2 ^ e) by (apply Z.pow_pos_nonneg; lia). nia.
  - exact Hm.
Qed.

Lemma round_negative (q : Q) :
  Qnum q < 0 ->
  round q = NegInf \/ exists q', round q = Fin q' /\ Qnum q' <= 0.
Proof.
  intros Hq. unfold round. destruct (Qnum q) as [|n|n] eqn:E; try lia.
  destruct (round_pos_sign (Z.pos n) (Z.pos (Qden q))) as [->|(q' & -> & Hq')];
    try lia; [now left|right].
  eexists; split; [reflexivity|]. apply Qred_sign.
  destruct q'; simpl in *. lia.
Qed.

(** A start index that is not positive keeps the whole array. *)
Lemma slice_not_positive {A} (a : list A) (x : number) :
  x = NegInf \/ (exists q, x = Fin q /\ Qnum q <= 0) ->
  slice a (Math_max [x; of_Z 0]) = a.
Proof.
  intros [->|(q & -> & Hq)].
  - change (Math_max [NegInf; of_Z 0]) with (of_Z 0). now rewrite slice_int.
  - unfold Math_max; cbn [fold_left]. change (max2 NegInf (Fin q)) with (Fin q).
    unfold max2, lt, of_Z, inject_Z, Qcompare; cbn [Qnum Qden].
    rewrite Z.mul_1_r, Z.mul_0_l.
    destruct (Z.compare_spec (Qnum q) 0) as [E|E|E]; try lia.
    + unfold slice, slice_from. rewrite E, Z.quot_0_l by lia.
      rewrite Z.min_l by lia. reflexivity.
    + change (slice a (of_Z 0) = a). now rewrite slice_int.
Qed.

(** *** [Math.max] over finite numbers *)

Lemma fold_max2_finite (l : list Q) : forall a : Q,
  exists m,
    fold_left max2 (Fin <$> l) (Fin a) = Fin m /\
    (m = a \/ m ∈ l) /\
    (a <= m)%Q /\
    (forall q, q ∈ l -> (q <= m)%Q).
Proof.
  induction l as [|x l IH]; intros a.
  - exists a. cbn. repeat split; [now left|apply Qle_refl|].
    intros q Hq. now apply elem_of_nil in Hq.
  - cbn [fmap list_fmap fold_left].
    assert (Hstep : exists b, max2 (Fin a) (Fin x) = Fin b /\ (b = a \/ b = x) /\
                              (a <= b)%Q /\ (x <= b)%Q).
    { unfold max2, lt. destruct (a ?= x)%Q eqn:E.
      - exists a. repeat split; [now left|apply Qle_refl|].
        apply Qeq_alt in E. rewrite E. apply Qle_refl.
      - exists x. apply Qlt_alt in E. repeat split; [now right| |apply Qle_refl].
        now apply Qlt_le_weak.
      - exists a. apply Qgt_alt in E. repeat split; [now left|apply Qle_refl|].
        now apply Qlt_le_weak. }
    destruct Hstep as (b & -> & Hb & Hab & Hxb).
    destruct (IH b) as (m & Hm & Hin & Hbm & Hall).
    exists m. split; [exact Hm|]. split; [|split].
    + destruct Hin as [->|Hin]; [|right; now apply list_elem_of_further].
      destruct Hb as [->| ->]; [now left|right; apply list_elem_of_here].
    + eapply Qle_trans; eassumption.
    + intros q Hq. apply elem_of_cons in Hq as [->|Hq]; [|now apply Hall].
      eapply Qle_trans; eassumption.
Qed.

Lemma Math_max_finite (l : list Q) :
  l <> [] ->
  exists m,
    Math_max (Fin <$> l) = Fin m /\ m ∈ l /\ (forall q, q ∈ l -> (q <= m)%Q).
Proof.
  destruct l as [|x l]; [congruence|]. intros _.
  unfold Math_max. cbn [fmap list_fmap fold_left].
  change (max2 NegInf (Fin x)) with (Fin x).
  destruct (fold_max2_finite l x) as (m & Hm & Hin & Hxm & Hall).
  exists m. split; [exact Hm|]. split.
  - destruct Hin as [->|Hin]; [apply list_elem_of_here|now apply list_elem_of_further].
  - intros q Hq. apply elem_of_cons in Hq as [->|Hq]; [exact Hxm|now apply Hall].
Qed.

End JSFacts.

(* ===================================================================== *)
(** * The server: session registry and emission loop                     *)
(* ===================================================================== *)

Module ApiSpec.
Import JS JSFacts Api.

Lemma conn_of_insert st id c rest1 rest2 rest3 :
  conn_of {| connections := <[id := c]> (connections st);
             timers := rest1; next_timer := rest2; emitted := rest3 |} id = c.
Proof. unfold conn_of; simpl. now rewrite lookup_insert_eq. Qed.

Lemma element_lookup (a : list number) (i : nat) :
  element a (of_nat i) = from_option VNum VUndefined (a !! i).
Proof.
  unfold element, of_nat. rewrite get_int by lia. now rewrite Nat2Z.id.
Qed.

(** Within the bounds of an array all of [getNextReading]'s arithmetic is
    exact: it returns the reading under the cursor and the next cursor. *)
Lemma getNextReading_in_range (d : SensorSeries) (i : nat) (now : Z) :
  array_length_ok (readings d) ->
  (i < length (readings d))%nat ->
  getNextReading (Some d) (of_nat i) now =
    Return (of_nat (S i mod length (readings d)), cyclic_reading d i now).
Proof.
  intros Hok Hi. unfold array_length_ok in Hok.
  unfold getNextReading, cyclic_reading, of_nat.
  rewrite add_int by lia. rewrite rem_int by lia.
  rewrite (Nat.mod_small i) by assumption.
  rewrite Nat2Z.inj_mod. do 4 f_equal. lia.
Qed.

Section Registry.

Variable sensorData : list SensorSeries.

(** The series that [sensorData[sensorId - 1]] selects for an integer id. *)
Lemma series_lookup (k : nat) :
  array_length_ok sensorData ->
  (1 <= k)%nat -> (k <= length sensorData)%nat ->
  get sensorData (sub (of_nat k) (of_Z 1)) = sensorData !! (k - 1)%nat.
Proof.
  intros Hok H1 Hk. unfold array_length_ok in Hok. unfold of_nat.
  rewrite sub_int by lia. rewrite get_int by lia. f_equal. lia.
Qed.

(** One firing for a live session whose sensor id and cursor are in range. *)
Lemma emitData_in_range st id socket now conn (k i : nat) d :
  array_length_ok sensorData ->
  array_length_ok (readings d) ->
  conn_of st id = Some conn ->
  sensorId conn = of_nat k -> (1 <= k)%nat -> sensorData !! (k - 1)%nat = Some d ->
  index conn = of_nat i -> (i < length (readings d))%nat ->
  emitData sensorData id socket now st =
    Return
      {| connections :=
           <[id := Some {| sensorId := of_nat k;
                           index := of_nat (S i mod length (readings d));
                           interval := interval conn |}]> (connections st);
         timers := timers st;
         next_timer := next_timer st;
         emitted := emitted st ++ [(socket, cyclic_reading d i now)] |}.
Proof.
  intros Hdata Hd Hconn Hk H1 Hser Hidx Hi.
  unfold emitData. rewrite Hconn, Hk, Hidx.
  rewrite series_lookup; [|assumption|assumption|].
  - rewrite Hser. rewrite getNextReading_in_range by assumption. reflexivity.
  - apply lookup_lt_Some in Hser. lia.
Qed.

(** [C6] One emission firing for a session with sensor id [k] and cursor [i]
    in range sends, to the socket of the session, the reading made of
    [readings[i]] and [zScores[i]] of the [k-1]-th series of the table,
    stamped with the current time, and then moves the cursor of that
    session to [(i+1) mod length(readings)]; the other sessions and the
    timers are left alone. *)
Theorem emitData_emits_and_advances st id socket now conn (k i : nat) d r :
  array_length_ok sensorData ->
  array_length_ok (readings d) ->
  conn_of st id = Some conn ->
  sensorId conn = of_nat k -> (1 <= k)%nat -> sensorData !! (k - 1)%nat = Some d ->
  index conn = of_nat i -> readings d !! i = Some r ->
  exists st',
    emitData sensorData id socket now st = Return st' /\
    emitted st' =
      emitted st ++
        [(socket, {| timestamp := now;
                     value := VNum r;
                     zscore := from_option VNum VUndefined (zScores d !! i) |})] /\
    conn_of st' id =
      Some {| sensorId := of_nat k;
              index := of_nat ((i + 1) mod length (readings d));
              interval := interval conn |} /\
    (forall id', id' <> id -> conn_of st' id' = conn_of st id') /\
    timers st' = timers st.
Proof.
  intros Hdata Hd Hconn Hk H1 Hser Hidx Hr.
  assert (Hi : (i < length (readings d))%nat) by (eapply lookup_lt_Some; eassumption).
  eexists. split; [eapply emitData_in_range; eassumption|].
  simpl. repeat split.
  - unfold cyclic_reading. rewrite Nat.mod_small by assumption.
    rewrite !element_lookup, Hr. reflexivity.
  - rewrite conn_of_insert. now rewrite Nat.add_1_r.
  - intros id' Hne. unfold conn_of; simpl. now rewrite lookup_insert_ne.
Qed.

(** Any number of firings, from any cursor in range. *)
Lemma emissions_in_range clock : forall st id conn (k i : nat) d,
  array_length_ok sensorData ->
  array_length_ok (readings d) ->
  conn_of st id = Some conn ->
  sensorId conn = of_nat k -> (1 <= k)%nat -> sensorData !! (k - 1)%nat = Some d ->
  index conn = of_nat i -> (i < length (readings d))%nat ->
  exists st',
    emissions sensorData id clock st = Return st' /\
    conn_of st' id =
      Some {| sensorId := of_nat k;
              index := of_nat ((i + length clock) mod length (readings d));
              interval := interval conn |} /\
    timers st' = timers st /\
    emitted st' =
      emitted st ++ imap (fun j now => (id, cyclic_reading d (i + j) now)) clock.
Proof.
  induction clock as [|now clock IH];
    intros st id conn k i d Hdata Hd Hconn Hk H1 Hser Hidx Hi.
  - exists st. simpl. rewrite Nat.add_0_r, Nat.mod_small, app_nil_r by assumption.
    repeat split. rewrite Hconn. destruct conn; simpl in *. congruence.
  - cbn [emissions].
    rewrite (emitData_in_range st id id now conn k i d) by assumption.
    set (st1 := {| connections := _ |}).
    assert (Hn : length (readings d) <> 0%nat) by lia.
    destruct (IH st1 id
                {| sensorId := of_nat k;
                   index := of_nat (S i mod length (readings d));
                   interval := interval conn |}
                k (S i mod length (readings d))%nat d) as (st' & Hrun & Hc & Ht & He);
      try assumption; try reflexivity.
    + apply conn_of_insert.
    + now apply Nat.mod_upper_bound.
    + exists st'. split; [exact Hrun|]. split; [|split].
      * rewrite Hc. simpl. do 3 f_equal.
        rewrite Nat.Div0.add_mod_idemp_l. f_equal. lia.
      * exact Ht.
      * rewrite He. subst st1. cbn [emitted imap]. rewrite <- app_assoc.
        f_equal. cbn [app]. rewrite Nat.add_0_r. f_equal.
        apply imap_ext. intros j now' _. cbn. f_equal.
        unfold cyclic_reading.
        replace ((S i mod length (readings d) + j) mod length (readings d))%nat
          with ((i + S j) mod length (readings d))%nat; [reflexivity|].
        rewrite Nat.Div0.add_mod_idemp_l. f_equal. lia.
Qed.

(** [C5] For a series of length [n >= 1] and a session that starts at cursor
    0: every firing returns and leaves the interval of the session set, so
    the stream does not stop by itself; after [n] firings the cursor is
    back at 0; the [j]-th pair sent is [(readings[j mod n], zScores[j mod n])],
    so each block of [n] pairs repeats the one before it. *)
Theorem cursor_cycles_and_stream_repeats st id conn (k : nat) d (clock : list Z) :
  array_length_ok sensorData ->
  array_length_ok (readings d) ->
  conn_of st id = Some conn ->
  sensorId conn = of_nat k -> (1 <= k)%nat -> sensorData !! (k - 1)%nat = Some d ->
  index conn = of_Z 0 -> (1 <= length (readings d))%nat ->
  let n := length (readings d) in
  exists st' conn' sent,
    emissions sensorData id clock st = Return st' /\
    timers st' = timers st /\
    conn_of st' id = Some conn' /\
    index conn' = of_nat (length clock mod n) /\
    (length clock = n -> index conn' = of_Z 0) /\
    pairs st' = pairs st ++ sent /\
    length sent = length clock /\
    (forall j, (j < length clock)%nat ->
       sent !! j = Some (element (readings d) (of_nat (j mod n)),
                         element (zScores d) (of_nat (j mod n)))) /\
    (forall j, (j + n < length clock)%nat -> sent !! (j + n)%nat = sent !! j).
Proof.
  intros Hdata Hd Hconn Hk H1 Hser Hidx Hn n.
  assert (H0 : (0 < length (readings d))%nat) by lia.
  destruct (emissions_in_range clock st id conn k 0 d
              Hdata Hd Hconn Hk H1 Hser Hidx H0) as (st' & Hrun & Hc & Ht & He).
  set (sent := imap (fun j (now : Z) =>
                       (element (readings d) (of_nat (j mod n)),
                        element (zScores d) (of_nat (j mod n)))) clock).
  assert (Hsent : forall j, (j < length clock)%nat ->
            sent !! j = Some (element (readings d) (of_nat (j mod n)),
                              element (zScores d) (of_nat (j mod n)))).
  { intros j Hj. unfold sent. rewrite list_lookup_imap.
    destruct (lookup_lt_is_Some_2 clock j Hj) as [now ->]. reflexivity. }
  eexists st', _, sent. split; [exact Hrun|]. split; [exact Ht|].
  split; [exact Hc|]. cbn [index]. rewrite Nat.add_0_l.
  split; [reflexivity|]. split.
  { intros ->. fold n. now rewrite Nat.Div0.mod_same. }
  split.
  { unfold pairs. rewrite He, fmap_app. f_equal. unfold sent.
    rewrite fmap_imap. apply imap_ext. intros j now _. reflexivity. }
  split; [unfold sent; apply length_imap|].
  split; [exact Hsent|].
  intros j Hj. rewrite !Hsent by lia. do 4 f_equal.
  all: rewrite <- Nat.Div0.add_mod_idemp_r, Nat.Div0.mod_same, Nat.add_0_r; reflexivity.
Qed.

(** A session whose sensor id selects no series (the id is [NaN], zero,
    fractional or beyond the table) makes every firing throw in
    [getNextReading], before anything is sent. *)
Lemma emitData_no_series st id socket now conn :
  conn_of st id = Some conn ->
  get sensorData (sub (sensorId conn) (of_Z 1)) = None ->
  emitData sensorData id socket now st = Throw (TypeError "readings").
Proof.
  intros Hc Hnone. unfold emitData. now rewrite Hc, Hnone.
Qed.

(** The interval of a session that was disconnected is cleared, so the
    scheduler has nothing left to run for it. *)
Lemma fire_after_disconnect st st' id conn now :
  conn_of st id = Some conn ->
  onDisconnect id st = Return st' ->
  fire sensorData (interval conn) now st' = Return st'.
Proof.
  intros Hc. unfold onDisconnect. rewrite Hc. intros [= <-].
  unfold fire; simpl. now rewrite lookup_delete_eq.
Qed.

End Registry.

(** [C3] as the code has it.  The disconnect handler of a live session
    clears its interval and sets its registry entry to [undefined], leaving
    the other sessions, the other intervals and the log alone.  It is not
    idempotent: run for an id with no session (unknown, or disconnected
    before) it throws a [TypeError] on [.interval] and changes nothing. *)
Theorem onDisconnect_removes_once st id :
  (forall conn, conn_of st id = Some conn ->
     exists st',
       onDisconnect id st = Return st' /\
       conn_of st' id = None /\
       timers st' !! interval conn = None /\
       (forall h, h <> interval conn -> timers st' !! h = timers st !! h) /\
       (forall id', id' <> id -> conn_of st' id' = conn_of st id') /\
       emitted st' = emitted st /\
       outcome st' (onDisconnect id st') = (st', Some (TypeError "interval"))) /\
  (conn_of st id = None ->
     outcome st (onDisconnect id st) = (st, Some (TypeError "interval"))).
Proof.
  split.
  - intros conn Hc. unfold onDisconnect at 1. rewrite Hc.
    eexists. split; [reflexivity|].
    assert (Hgone : forall t1 t2 t3,
              conn_of {| connections := <[id := None]> (connections st);
                         timers := t1; next_timer := t2; emitted := t3 |} id = None)
      by (intros; apply conn_of_insert).
    repeat split.
    + apply Hgone.
    + simpl. apply lookup_delete_eq.
    + intros h Hne. simpl. now rewrite lookup_delete_ne.
    + intros id' Hne. unfold conn_of; simpl. now rewrite lookup_insert_ne.
    + unfold onDisconnect. now rewrite Hgone.
  - intros Hnone. unfold onDisconnect. now rewrite Hnone.
Qed.

(** [C4] as the code has it.  The connection handler validates nothing:
    whatever the [sensor] parameter (absent, not numeric, zero, out of
    range), it returns, registers a session with [sensorId] the number
    [Number(sensor)] and cursor 0, and sets an interval for it. *)
Theorem onConnect_always_registers st id sensor :
  exists st',
    onConnect id sensor st = Return st' /\
    conn_of st' id =
      Some {| sensorId := Number sensor; index := of_Z 0; interval := next_timer st |} /\
    timers st' !! next_timer st = Some id /\
    emitted st' = emitted st.
Proof.
  eexists. split; [reflexivity|]. repeat split.
  - apply conn_of_insert.
  - simpl. apply lookup_insert_eq.
Qed.

End ApiSpec.

(* ===================================================================== *)
(** * The server: what the handlers keep and how they compose            *)
(* ===================================================================== *)

Module ApiLaws.
Import JS JSFacts Api ApiSpec.

Lemma conn_of_insert_ne st id id' c rest1 rest2 rest3 :
  id <> id' ->
  conn_of {| connections := <[id := c]> (connections st);
             timers := rest1; next_timer := rest2; emitted := rest3 |} id'
  = conn_of st id'.
Proof. intros Hne. unfold conn_of; simpl. now rewrite lookup_insert_ne. Qed.

Section Handlers.

Variable sensorData : list SensorSeries.

(** [emitData] by cases: no session, no series, or one reading sent. *)
Lemma emitData_cases st id socket now :
  emitData sensorData id socket now st =
    match conn_of st id with
    | None => Throw (TypeError "sensorId")
    | Some conn =>
        match get sensorData (sub (sensorId conn) (of_Z 1)) with
        | None => Throw (TypeError "readings")
        | Some d =>
            Return
              {| connections :=
                   <[id := Some {| sensorId := sensorId conn;
                                   index := rem (add (index conn) (of_Z 1))
                                                (of_nat (length (readings d)));
                                   interval := interval conn |}]> (connections st);
                 timers := timers st;
                 next_timer := next_timer st;
                 emitted :=
                   emitted st ++
                     [(socket, {| timestamp := now;
                                  value := element (readings d) (index conn);
                                  zscore := element (zScores d) (index conn) |})] |}
        end
    end.
Proof.
  unfold emitData. destruct (conn_of st id) as [conn|]; [|reflexivity].
  destruct (get sensorData (sub (sensorId conn) (of_Z 1))); reflexivity.
Qed.

(** [X1] Whatever it finds, one firing of [emitData] for a connection
    leaves the intervals and every other session alone, neither creates nor
    removes the session of that connection, keeps the sensor and the
    interval of that session, and sends at most one reading, to the socket
    it was given. *)
Theorem emitData_frame st id socket now :
  let st' := (outcome st (emitData sensorData id socket now st)).1 in
  timers st' = timers st /\
  next_timer st' = next_timer st /\
  (forall id', id' <> id -> conn_of st' id' = conn_of st id') /\
  (conn_of st id = None -> conn_of st' id = None) /\
  (forall conn, conn_of st id = Some conn ->
     exists conn', conn_of st' id = Some conn' /\
                   sensorId conn' = sensorId conn /\ interval conn' = interval conn) /\
  (emitted st' = emitted st \/ exists r, emitted st' = emitted st ++ [(socket, r)]).
Proof.
  rewrite emitData_cases.
  destruct (conn_of st id) as [conn|] eqn:Hc.
  - destruct (get sensorData (sub (sensorId conn) (of_Z 1))) as [d|]; cbn.
    + repeat split.
      * intros id' Hne. now apply conn_of_insert_ne.
      * discriminate.
      * intros conn0 [= <-]. eexists. rewrite conn_of_insert. repeat split.
      * right. eexists. reflexivity.
    + repeat split; auto; [discriminate|]. intros conn0 [= <-]. eauto.
  - cbn. repeat split; auto. discriminate.
Qed.

(** [X2] Firings for two different connections do not interfere: in either
    order both return or both throw, and when they return the registry and
    the intervals are the same and each connection was sent the same
    reading; only the order of the two sends differs. *)
Theorem emitData_commute st id1 id2 socket1 socket2 now1 now2 :
  id1 <> id2 ->
  match (st1 ← emitData sensorData id1 socket1 now1 st;
         emitData sensorData id2 socket2 now2 st1),
        (st2 ← emitData sensorData id2 socket2 now2 st;
         emitData sensorData id1 socket1 now1 st2) with
  | Return a, Return b =>
      connections a = connections b /\
      timers a = timers b /\
      next_timer a = next_timer b /\
      exists r1 r2 s1 s2,
        emitData sensorData id1 socket1 now1 st = Return s1 /\
        emitted s1 = emitted st ++ [(socket1, r1)] /\
        emitData sensorData id2 socket2 now2 st = Return s2 /\
        emitted s2 = emitted st ++ [(socket2, r2)] /\
        emitted a = emitted st ++ [(socket1, r1); (socket2, r2)] /\
        emitted b = emitted st ++ [(socket2, r2); (socket1, r1)]
  | Throw _, Throw _ => True
  | _, _ => False
  end.
Proof.
  intros Hne. rewrite !emitData_cases.
  destruct (conn_of st id1) as [c1|] eqn:H1; cbn.
  - destruct (get sensorData (sub (sensorId c1) (of_Z 1))) as [d1|] eqn:G1; cbn.
    + rewrite emitData_cases, conn_of_insert_ne by assumption.
      destruct (conn_of st id2) as [c2|] eqn:H2; cbn; [|exact I].
      destruct (get sensorData (sub (sensorId c2) (of_Z 1))) as [d2|] eqn:G2; cbn;
        [|exact I].
      rewrite emitData_cases, conn_of_insert_ne by congruence.
      rewrite H1, G1. cbn.
      split; [now apply insert_insert_ne|]. split; [reflexivity|].
      split; [reflexivity|].
      eexists _, _, _, _. repeat split; now rewrite <- app_assoc.
    + destruct (conn_of st id2) as [c2|] eqn:H2; cbn; [|exact I].
      destruct (get sensorData (sub (sensorId c2) (of_Z 1))) as [d2|]; cbn; [|exact I].
      rewrite emitData_cases, conn_of_insert_ne by congruence.
      rewrite H1, G1. exact I.
  - destruct (conn_of st id2) as [c2|] eqn:H2; cbn; [|exact I].
    destruct (get sensorData (sub (sensorId c2) (of_Z 1))) as [d2|]; cbn; [|exact I].
    rewrite emitData_cases, conn_of_insert_ne by congruence.
    rewrite H1. exact I.
Qed.

(** ** Sensor ids that select no series, and series without readings *)

(** [X3] A session whose sensor id is [NaN] (the parameter was absent or
    not numeric) or an integer outside [1 .. length(sensorData)] never
    streams: every firing throws in [getNextReading], sends nothing and
    leaves the server as it was. *)
Theorem emitData_sensor_out_of_range st id socket now conn :
  conn_of st id = Some conn ->
  (sensorId conn = NaN \/
   exists k, sensorId conn = of_Z k /\ - 2 ^ 53 < k - 1 < 2 ^ 53 /\
             (k < 1 \/ Z.of_nat (length sensorData) < k)) ->
  outcome st (emitData sensorData id socket now st) = (st, Some (TypeError "readings")).
Proof.
  intros Hc Hid. rewrite emitData_cases, Hc.
  assert (Hnone : get sensorData (sub (sensorId conn) (of_Z 1)) = None).
  { destruct Hid as [->|(k & -> & Hk & Hout)]; [reflexivity|].
    rewrite sub_int by lia. unfold get. rewrite index_of_int.
    destruct (Z.leb_spec 0 (k - 1)); [|reflexivity].
    cbn. apply lookup_ge_None. lia. }
  now rewrite Hnone.
Qed.

(** [X4] A series without readings does not stop the stream either: the
    firing at cursor 0 sends a reading whose [value] is [undefined] and
    sets the cursor to [NaN] (the remainder by a length of 0); from then on
    every firing sends [undefined] for both [value] and [zscore] and the
    cursor stays [NaN]. *)
Theorem emitData_empty_series st id socket now conn d :
  conn_of st id = Some conn ->
  get sensorData (sub (sensorId conn) (of_Z 1)) = Some d ->
  readings d = [] ->
  index conn = of_Z 0 \/ index conn = NaN ->
  exists st' r,
    emitData sensorData id socket now st = Return st' /\
    emitted st' = emitted st ++ [(socket, r)] /\
    timestamp r = now /\
    value r = VUndefined /\
    (index conn = NaN -> zscore r = VUndefined) /\
    conn_of st' id =
      Some {| sensorId := sensorId conn; index := NaN; interval := interval conn |}.
Proof.
  intros Hc Hd Hempty Hidx. rewrite emitData_cases, Hc, Hd, Hempty.
  destruct Hidx as [-> | ->].
  all: eexists _, _; split; [reflexivity|]; cbn [emitted timestamp value zscore].
  all: rewrite conn_of_insert; repeat split.
  discriminate.
Qed.

(** ** The states the server goes through *)

Lemma emitData_Return st st' id socket now :
  emitData sensorData id socket now st = Return st' ->
  exists conn conn' r,
    conn_of st id = Some conn /\
    interval conn' = interval conn /\
    sensorId conn' = sensorId conn /\
    st' = {| connections := <[id := Some conn']> (connections st);
             timers := timers st;
             next_timer := next_timer st;
             emitted := emitted st ++ [(socket, r)] |}.
Proof.
  rewrite emitData_cases. destruct (conn_of st id) as [conn|]; [|discriminate].
  destruct (get sensorData (sub (sensorId conn) (of_Z 1))); [|discriminate].
  intros [= <-].
  eexists conn, {| sensorId := sensorId conn; index := _; interval := interval conn |}, _.
  repeat split.
Qed.

(** In a state the server can reach, sessions and intervals are paired. *)
Lemma reachable_paired st :
  reachable sensorData st ->
  (forall id conn, conn_of st id = Some conn -> timers st !! interval conn = Some id) /\
  (forall h id, timers st !! h = Some id ->
     exists conn, conn_of st id = Some conn /\ interval conn = h) /\
  (forall h id, timers st !! h = Some id -> (h < next_timer st)%nat).
Proof.
  induction 1 as [|st st' id sensor _ (I1 & I2 & I3) Hfresh Hstep
                  |st st' id _ (I1 & I2 & I3) Hstep
                  |st st' h now _ (I1 & I2 & I3) Hstep].
  - repeat split; intros *; unfold conn_of; cbn; rewrite lookup_empty; discriminate.
  - injection Hstep as <-.
    assert (Hnew : timers st !! next_timer st = None).
    { destruct (timers st !! next_timer st) as [x|] eqn:E; [|reflexivity].
      apply I3 in E. lia. }
    split; [|split].
    + intros id' conn. destruct (decide (id = id')) as [<-|Hne].
      * rewrite conn_of_insert. intros [= <-]. cbn. apply lookup_insert_eq.
      * rewrite conn_of_insert_ne by assumption. intros Hc. cbn.
        pose proof (I1 _ _ Hc) as Ht. rewrite lookup_insert_ne; [exact Ht|].
        intros E. rewrite <- E in Ht. congruence.
    + intros h id'. cbn [timers].
      destruct (decide (next_timer st = h)) as [<-|Hne].
      * rewrite lookup_insert_eq. intros [= <-]. rewrite conn_of_insert. eauto.
      * rewrite lookup_insert_ne by assumption. intros Ht.
        destruct (I2 _ _ Ht) as (conn & Hc & Hi).
        assert (id <> id').
        { intros <-. unfold conn_of in Hc. rewrite Hfresh in Hc. discriminate. }
        rewrite conn_of_insert_ne by assumption. eauto.
    + intros h id'. cbn [timers next_timer].
      destruct (decide (next_timer st = h)) as [<-|Hne]; [lia|].
      rewrite lookup_insert_ne by assumption. intros Ht. apply I3 in Ht. lia.
  - unfold onDisconnect in Hstep.
    destruct (conn_of st id) as [conn|] eqn:Hc; [|discriminate].
    injection Hstep as <-. split; [|split].
    + intros id' conn'. destruct (decide (id = id')) as [<-|Hne].
      * rewrite conn_of_insert. discriminate.
      * rewrite conn_of_insert_ne by assumption. intros Hc'. cbn.
        pose proof (I1 _ _ Hc') as Ht. rewrite lookup_delete_ne; [exact Ht|].
        intros E. pose proof (I1 _ _ Hc) as Ht0. rewrite E in Ht0. congruence.
    + intros h id'. cbn [timers].
      destruct (decide (interval conn = h)) as [<-|Hne].
      * rewrite lookup_delete_eq. discriminate.
      * rewrite lookup_delete_ne by assumption. intros Ht.
        destruct (I2 _ _ Ht) as (conn' & Hc' & Hi).
        assert (id <> id') by (intros <-; congruence).
        rewrite conn_of_insert_ne by assumption. eauto.
    + intros h id'. cbn [timers next_timer].
      destruct (decide (interval conn = h)) as [<-|Hne].
      * rewrite lookup_delete_eq. discriminate.
      * rewrite lookup_delete_ne by assumption. apply I3.
  - unfold fire in Hstep. destruct (timers st !! h) as [id|] eqn:Hh.
    + apply emitData_Return in Hstep as (conn & conn' & r & Hc & Hi & _ & ->).
      split; [|split].
      * intros id' c. destruct (decide (id = id')) as [<-|Hne].
        -- rewrite conn_of_insert. intros [= <-]. cbn. rewrite Hi. now apply I1.
        -- rewrite conn_of_insert_ne by assumption. apply I1.
      * intros h' id'. cbn [timers]. intros Ht.
        destruct (I2 _ _ Ht) as (c & Hc' & Hi').
        destruct (decide (id = id')) as [<-|Hne].
        -- rewrite conn_of_insert. eexists; split; [reflexivity|]. congruence.
        -- rewrite conn_of_insert_ne by assumption. eauto.
      * exact I3.
    + injection Hstep as <-. auto.
Qed.

(** [C2] Once the session of a connection is gone, a firing that was
    pending for it is dropped in silence.  In every state the server
    reaches in which [id] has no session: no interval that is set calls
    back for [id]; the interval that the disconnect handler of [id] cleared
    runs nothing when its time comes, so that nothing is thrown, nothing is
    sent and the server stays as it is; and whichever interval fires, the
    firing does not throw on [conn.sensorId], sends nothing to [id] and
    leaves [id] without a session. *)
Theorem firing_after_removal_is_dropped st id :
  reachable sensorData st ->
  conn_of st id = None ->
  (forall h, timers st !! h <> Some id) /\
  (forall st0 conn now,
     conn_of st0 id = Some conn -> onDisconnect id st0 = Return st ->
     fire sensorData (interval conn) now st = Return st) /\
  (forall h now,
     fire sensorData h now st <> Throw (TypeError "sensorId") /\
     forall st', fire sensorData h now st = Return st' ->
       conn_of st' id = None /\
       (emitted st' = emitted st \/
        exists id' r, id' <> id /\ emitted st' = emitted st ++ [(id', r)])).
Proof.
  intros Hr Hgone. destruct (reachable_paired st Hr) as (_ & I2 & _).
  assert (Hnone : forall h, timers st !! h <> Some id).
  { intros h Hh. destruct (I2 _ _ Hh) as (conn & Hc & _). congruence. }
  split; [exact Hnone|]. split.
  - intros st0 conn now Hc Hstep.
    exact (fire_after_disconnect sensorData st0 st id conn now Hc Hstep).
  - intros h now. unfold fire.
    destruct (timers st !! h) as [id'|] eqn:Hh.
    + assert (Hne : id' <> id) by (intros ->; now apply (Hnone h)).
      destruct (I2 _ _ Hh) as (conn & Hc & _).
      rewrite emitData_cases, Hc.
      destruct (get sensorData (sub (sensorId conn) (of_Z 1))) as [d|].
      * split; [discriminate|]. intros st' [= <-]. split.
        -- rewrite conn_of_insert_ne by assumption. exact Hgone.
        -- right. eexists id', _. split; [exact Hne|reflexivity].
      * split; [discriminate|]. discriminate.
    + split; [discriminate|]. intros st' [= <-]. auto.
Qed.

(** [X5] In every state the server reaches there is exactly one interval
    per session: the interval of a live session is set and calls back for
    that session, every interval that is set belongs to a live session,
    whose handle it is, and two sessions never share an interval. *)
Theorem reachable_one_interval_per_session st :
  reachable sensorData st ->
  (forall id conn, conn_of st id = Some conn -> timers st !! interval conn = Some id) /\
  (forall h id, timers st !! h = Some id ->
     exists conn, conn_of st id = Some conn /\ interval conn = h) /\
  (forall id1 id2 c1 c2,
     conn_of st id1 = Some c1 -> conn_of st id2 = Some c2 ->
     interval c1 = interval c2 -> id1 = id2).
Proof.
  intros Hr. destruct (reachable_paired st Hr) as (I1 & I2 & _).
  split; [exact I1|]. split; [exact I2|].
  intros id1 id2 c1 c2 H1 H2 E.
  apply I1 in H1. apply I1 in H2. rewrite E in H1. congruence.
Qed.

(** [X6] So in a reachable state the scheduler never runs [emitData] for a
    session that is gone: a firing returns, or throws in [getNextReading]
    because the sensor id of the session selects no series, and never
    throws on [conn.sensorId]. *)
Theorem fire_finds_its_session st h now e :
  reachable sensorData st ->
  fire sensorData h now st = Throw e ->
  e = TypeError "readings" /\
  exists id conn,
    timers st !! h = Some id /\ conn_of st id = Some conn /\
    get sensorData (sub (sensorId conn) (of_Z 1)) = None.
Proof.
  intros Hr. destruct (reachable_paired st Hr) as (_ & I2 & _).
  unfold fire. destruct (timers st !! h) as [id|] eqn:Hh; [|discriminate].
  destruct (I2 _ _ Hh) as (conn & Hc & _).
  rewrite emitData_cases, Hc.
  destruct (get sensorData (sub (sensorId conn) (of_Z 1))) eqn:G; [discriminate|].
  intros [= <-]. split; [reflexivity|]. eauto.
Qed.

(** [X7] A connection that comes and goes leaves no trace but its registry
    key: from a reachable state and a fresh id, the two handlers return,
    the intervals are again those set before, nothing was sent, the id has
    no session and the other sessions are as they were. *)
Theorem connect_then_disconnect st id sensor :
  reachable sensorData st ->
  connections st !! id = None ->
  exists st1 st2,
    onConnect id sensor st = Return st1 /\
    onDisconnect id st1 = Return st2 /\
    timers st2 = timers st /\
    emitted st2 = emitted st /\
    conn_of st2 id = None /\
    (forall id', id' <> id -> conn_of st2 id' = conn_of st id') /\
    next_timer st2 = S (next_timer st).
Proof.
  intros Hr Hfresh. destruct (reachable_paired st Hr) as (_ & _ & I3).
  eexists _, _. split; [reflexivity|].
  unfold onDisconnect. rewrite conn_of_insert. split; [reflexivity|].
  cbn [timers emitted next_timer connections interval].
  repeat split.
  - rewrite delete_insert_eq. apply delete_id.
    destruct (timers st !! next_timer st) as [x|] eqn:E; [|reflexivity].
    apply I3 in E. lia.
  - unfold conn_of; cbn. now rewrite lookup_insert_eq.
  - intros id' Hne. unfold conn_of; cbn. now rewrite !lookup_insert_ne.
Qed.

(** [X8] The server only ever sends to sockets that connected: in every
    reachable state each reading of the log went to a socket whose id is a
    key of the registry. *)
Theorem reachable_sends_to_connected st e :
  reachable sensorData st ->
  e ∈ emitted st ->
  is_Some (connections st !! e.1).
Proof.
  intros Hr. revert e.
  induction Hr as [|st st' id sensor _ IH Hfresh Hstep
                   |st st' id _ IH Hstep
                   |st st' h now Hr IH Hstep]; intros e He.
  - now apply elem_of_nil in He.
  - injection Hstep as <-. cbn in *.
    destruct (decide (id = e.1)) as [<-|Hne].
    + rewrite lookup_insert_eq. eauto.
    + rewrite lookup_insert_ne by assumption. now apply IH.
  - unfold onDisconnect in Hstep.
    destruct (conn_of st id) as [conn|]; [|discriminate]. injection Hstep as <-.
    cbn in *. destruct (decide (id = e.1)) as [<-|Hne].
    + rewrite lookup_insert_eq. eauto.
    + rewrite lookup_insert_ne by assumption. now apply IH.
  - unfold fire in Hstep. destruct (timers st !! h) as [id|] eqn:Hh.
    + apply emitData_Return in Hstep as (conn & conn' & r & Hc & _ & _ & ->).
      cbn in *. apply elem_of_app in He as [He|He].
      * destruct (decide (id = e.1)) as [<-|Hne].
        -- rewrite lookup_insert_eq. eauto.
        -- rewrite lookup_insert_ne by assumption. now apply IH.
      * apply list_elem_of_singleton in He as ->. cbn.
        rewrite lookup_insert_eq. eauto.
    + injection Hstep as <-. now apply IH.
Qed.

(** ** The cursor *)

Lemma get_Some_lookup {A} (a : list A) (i : number) (x : A) :
  get a i = Some x -> exists j, a !! j = Some x.
Proof.
  unfold get. destruct (index_of i) as [j|]; [|discriminate]. cbn. eauto.
Qed.

Lemma next_cursor_in_range (i n : nat) :
  Z.of_nat n < 2 ^ 32 -> (i < n)%nat ->
  rem (add (of_nat i) (of_Z 1)) (of_nat n) = of_nat (S i mod n).
Proof.
  intros Hn Hi. unfold of_nat.
  rewrite add_int by lia. rewrite rem_int by lia.
  rewrite Nat2Z.inj_mod. f_equal. f_equal. lia.
Qed.

Lemma reachable_cursor st :
  array_length_ok sensorData ->
  Forall (fun d => array_length_ok (readings d)) sensorData ->
  reachable sensorData st ->
  forall id conn, conn_of st id = Some conn ->
    index conn = of_Z 0 \/
    exists d, get sensorData (sub (sensorId conn) (of_Z 1)) = Some d /\
      ((exists i, (i < length (readings d))%nat /\ index conn = of_nat i) \/
       (readings d = [] /\ index conn = NaN)).
Proof.
  intros Hdata Hall.
  induction 1 as [|st st' id sensor _ IH Hfresh Hstep
                  |st st' id _ IH Hstep
                  |st st' h now _ IH Hstep]; intros id' c.
  - unfold conn_of; cbn. rewrite lookup_empty. discriminate.
  - injection Hstep as <-. destruct (decide (id = id')) as [<-|Hne].
    + rewrite conn_of_insert. intros [= <-]. now left.
    + rewrite conn_of_insert_ne by assumption. apply IH.
  - unfold onDisconnect in Hstep.
    destruct (conn_of st id) as [conn|]; [|discriminate]. injection Hstep as <-.
    destruct (decide (id = id')) as [<-|Hne].
    + rewrite conn_of_insert. discriminate.
    + rewrite conn_of_insert_ne by assumption. apply IH.
  - unfold fire in Hstep. destruct (timers st !! h) as [id|]; [|injection Hstep as <-; apply IH].
    rewrite emitData_cases in Hstep.
    destruct (conn_of st id) as [conn|] eqn:Hc; [|discriminate].
    destruct (get sensorData (sub (sensorId conn) (of_Z 1))) as [d|] eqn:G; [|discriminate].
    injection Hstep as <-. destruct (decide (id = id')) as [<-|Hne].
    + rewrite conn_of_insert. intros [= <-]. cbn [sensorId index]. right.
      exists d. split; [exact G|].
      assert (Hd : array_length_ok (readings d)).
      { destruct (get_Some_lookup _ _ _ G) as (j & Hj).
        eapply (Forall_lookup_1 _ _ _ _ Hall Hj). }
      unfold array_length_ok in Hd.
      assert (Hcur : (exists i, (i < length (readings d))%nat /\ index conn = of_nat i) \/
                     (readings d = [] /\ (index conn = of_Z 0 \/ index conn = NaN))).
      { destruct (IH _ _ Hc) as [H0|(d' & G' & Hcase)].
        - destruct (readings d) eqn:E; [right; auto|left].
          exists 0%nat. split; [cbn; lia|exact H0].
        - rewrite G in G'. injection G' as <-.
          destruct Hcase as [?|[? ?]]; [left|right]; auto. }
      destruct Hcur as [(i & Hi & ->)|(Hempty & Hidx)].
      * left. exists (S i mod length (readings d))%nat. split.
        -- apply Nat.mod_upper_bound. lia.
        -- now apply next_cursor_in_range.
      * right. split; [exact Hempty|]. rewrite Hempty.
        destruct Hidx as [-> | ->]; reflexivity.
    + rewrite conn_of_insert_ne by assumption. apply IH.
Qed.

(** [X9] The cursor of a session stays inside its series: in every state
    the server reaches, a session whose sensor id selects a series with at
    least one reading has a cursor that is an index of that series. *)
Theorem reachable_cursor_in_range st id conn d :
  array_length_ok sensorData ->
  Forall (fun d => array_length_ok (readings d)) sensorData ->
  reachable sensorData st ->
  conn_of st id = Some conn ->
  get sensorData (sub (sensorId conn) (of_Z 1)) = Some d ->
  readings d <> [] ->
  exists i r,
    index conn = of_nat i /\ (i < length (readings d))%nat /\
    readings d !! i = Some r /\ element (readings d) (index conn) = VNum r.
Proof.
  intros Hdata Hall Hr Hc G Hne.
  assert (Hi : exists i, (i < length (readings d))%nat /\ index conn = of_nat i).
  { destruct (reachable_cursor st Hdata Hall Hr id conn Hc) as [H0|(d' & G' & Hcase)].
    - exists 0%nat. split; [|exact H0]. destruct (readings d); [congruence|cbn; lia].
    - rewrite G in G'. injection G' as <-.
      destruct Hcase as [?|[? ?]]; [assumption|congruence]. }
  destruct Hi as (i & Hi & Hidx).
  destruct (lookup_lt_is_Some_2 (readings d) i Hi) as [r Hr'].
  exists i, r. repeat split; try assumption.
  rewrite Hidx, element_lookup, Hr'. reflexivity.
Qed.

(** [X10] A client that connects with a sensor parameter that reads as the
    integer [k] of a series with [n >= 1] readings is sent, by the first
    [n] firings of its interval, exactly that series from its start:
    the values in order, the z-scores beside them, each stamped with the
    time of its firing; and its cursor is back at 0. *)
Theorem connect_then_first_pass st st1 id sensor (k : nat) d (clock : list Z) :
  array_length_ok sensorData ->
  array_length_ok (readings d) ->
  onConnect id sensor st = Return st1 ->
  Number sensor = of_nat k -> (1 <= k)%nat -> sensorData !! (k - 1)%nat = Some d ->
  (1 <= length (readings d))%nat ->
  length clock = length (readings d) ->
  exists st2 conn2,
    emissions sensorData id clock st1 = Return st2 /\
    (fun e => e.1) <$> drop (length (emitted st)) (emitted st2) = replicate (length clock) id /\
    (fun e => timestamp e.2) <$> drop (length (emitted st)) (emitted st2) = clock /\
    (fun e => value e.2) <$> drop (length (emitted st)) (emitted st2) = VNum <$> readings d /\
    (fun e => zscore e.2) <$> drop (length (emitted st)) (emitted st2)
      = (fun j => from_option VNum VUndefined (zScores d !! j)) <$> seq 0 (length (readings d)) /\
    conn_of st2 id = Some conn2 /\ index conn2 = of_Z 0.
Proof.
  intros Hdata Hd Hconn Hnum Hk Hser Hn Hlen. injection Hconn as <-.
  set (st1 := {| connections := _ |}).
  destruct (emissions_in_range sensorData clock st1 id
              {| sensorId := Number sensor; index := of_Z 0; interval := next_timer st |}
              k 0 d Hdata Hd) as (st2 & Hrun & Hc & _ & He);
    [apply conn_of_insert|exact Hnum|exact Hk|exact Hser|reflexivity|lia|].
  eexists st2, _. split; [exact Hrun|].
  rewrite He. subst st1. cbn [emitted]. rewrite drop_app_length.
  assert (Hmod : forall j x, clock !! j = Some x ->
            (j mod length (readings d) = j)%nat).
  { intros j x Hj. apply lookup_lt_Some in Hj. apply Nat.mod_small. lia. }
  repeat split.
  - rewrite <- (length_imap (fun j now => (id, cyclic_reading d (0 + j) now)) clock).
    apply const_fmap. intros j e. rewrite list_lookup_imap.
    destruct (clock !! j); cbn; [|discriminate]. now intros [= <-].
  - apply list_eq. intros j. rewrite list_lookup_fmap, list_lookup_imap.
    destruct (clock !! j); reflexivity.
  - rewrite fmap_imap. apply list_eq. intros j.
    rewrite list_lookup_imap, list_lookup_fmap.
    destruct (clock !! j) as [x|] eqn:Hj; cbn [fmap option_fmap option_map].
    + unfold cyclic_reading; cbn [value snd Nat.add]. rewrite (Hmod j x Hj), element_lookup.
      assert (Hj' := lookup_lt_Some _ _ _ Hj). rewrite Hlen in Hj'.
      destruct (lookup_lt_is_Some_2 _ _ Hj') as [r ->]. reflexivity.
    + apply lookup_ge_None in Hj. rewrite Hlen in Hj.
      apply lookup_ge_None in Hj. now rewrite Hj.
  - rewrite fmap_imap. apply list_eq. intros j.
    rewrite list_lookup_imap, list_lookup_fmap.
    destruct (clock !! j) as [x|] eqn:Hj; cbn [fmap option_fmap option_map].
    + unfold cyclic_reading; cbn [zscore snd Nat.add]. rewrite (Hmod j x Hj), !element_lookup.
      assert (Hj' := lookup_lt_Some _ _ _ Hj). rewrite Hlen in Hj'.
      rewrite lookup_seq_lt by assumption. reflexivity.
    + apply lookup_ge_None in Hj. rewrite Hlen in Hj.
      rewrite lookup_seq_ge by assumption. reflexivity.
  - exact Hc.
  - cbn [index Nat.add]. rewrite Hlen, Nat.Div0.mod_same. reflexivity.
Qed.

End Handlers.

End ApiLaws.

(* ===================================================================== *)
(** * The client: window buffer, view and error state                    *)
(* ===================================================================== *)

Module ChartSpec.
Import JS JSFacts Chart.

(** ** The sliding window *)

Lemma last_n_app {A} (k : nat) (a b : list A) :
  last_n k (last_n k a ++ b) = last_n k (a ++ b).
Proof.
  unfold last_n. rewrite !length_app, length_drop.
  rewrite <- (drop_app_le a b (length a - k)) by lia.
  rewrite drop_drop. f_equal. lia.
Qed.

Lemma last_n_length {A} (k : nat) (l : list A) :
  length (last_n k l) = Nat.min (length l) k.
Proof. unfold last_n. rewrite length_drop. lia. Qed.

Lemma last_n_all {A} (k : nat) (l : list A) :
  (length l <= k)%nat -> last_n k l = l.
Proof. intros H. unfold last_n. now replace (length l - k)%nat with 0%nat by lia. Qed.

(** One reading stored: the array of the previous state has grown by the
    reading, and the new state keeps what [slice] leaves of it, the index
    having been computed from the length before the [push]. *)
Lemma storeReading_step (r : Point) (st : State) :
  array_length_ok (data st) ->
  storeReading_updater r st =
    Return (data st ++ [r],
            {| patch_data := Some (drop (length (data st) - 50) (data st ++ [r]));
               patch_lastTimestamp := Some (Some (toLocaleTimeString (timestamp r)));
               patch_connected := Some true;
               patch_error := Some (VBool false) |}).
Proof.
  intros Hok. unfold array_length_ok in Hok.
  unfold storeReading_updater, MAX_POINTS_TO_STORE, of_nat.
  rewrite last_snoc. rewrite sub_int by lia. rewrite Math_max_int2.
  rewrite slice_int by lia. do 5 f_equal. lia.
Qed.

Lemma storeReading_data (r : Point) (st : State) :
  (length (data st) <= 51)%nat ->
  storeReading r st =
    Return {| data := last_n 51 (data st ++ [r]);
              lastTimestamp := Some (toLocaleTimeString (timestamp r));
              connected := true;
              error := VBool false |}.
Proof.
  intros Hlen. unfold storeReading. rewrite storeReading_step.
  - cbn. unfold setState; cbn. do 2 f_equal. unfold last_n.
    rewrite length_app; cbn. f_equal. lia.
  - unfold array_length_ok. lia.
Qed.

(** Any run of readings: the window holds the last 51 of what it held and
    received. *)
Lemma storeReadings_data (rs : list Point) : forall st,
  (length (data st) <= 51)%nat ->
  exists st',
    storeReadings rs st = Return st' /\
    data st' = last_n 51 (data st ++ rs).
Proof.
  induction rs as [|r rs IH]; intros st Hlen.
  - exists st. cbn. rewrite app_nil_r. now rewrite last_n_all.
  - cbn [storeReadings]. rewrite storeReading_data by assumption.
    set (st1 := {| data := _ |}).
    destruct (IH st1) as (st' & Hrun & Hd).
    + subst st1; cbn. rewrite last_n_length. lia.
    + exists st'. split; [exact Hrun|].
      rewrite Hd. subst st1; cbn [data]. rewrite last_n_app.
      now rewrite <- app_assoc.
Qed.

(** [C1] The window as the code keeps it.  [storeReading] computes how many
    points to drop from the length before the [push], so the window grows
    to 51 points, one more than [MAX_POINTS_TO_STORE]: after 51 readings it
    still holds all 51 of them, the first included, and not the 50 that
    follow the first. *)
Theorem storeReading_keeps_51_points :
  exists st',
    storeReadings (sample_points 51) initial = Return st' /\
    data st' = sample_points 51 /\
    length (data st') = 51%nat /\
    MAX_POINTS_TO_STORE < Z.of_nat (length (data st')) /\
    data st' <> drop 1 (sample_points 51).
Proof.
  destruct (storeReadings_data (sample_points 51) initial) as (st' & Hrun & Hd);
    [cbn; lia|].
  exists st'. split; [exact Hrun|].
  assert (E : data st' = sample_points 51) by (rewrite Hd; reflexivity).
  rewrite E. repeat split; try reflexivity. discriminate.
Qed.

(** From the initial state the window holds the last 51 readings received,
    whatever their number. *)
Lemma storeReadings_from_initial (rs : list Point) :
  exists st',
    storeReadings rs initial = Return st' /\
    data st' = last_n 51 rs /\
    length (data st') = Nat.min (length rs) 51.
Proof.
  destruct (storeReadings_data rs initial) as (st' & Hrun & Hd); [cbn; lia|].
  exists st'. change (data initial ++ rs) with rs in Hd.
  rewrite Hd, last_n_length. auto.
Qed.

(** ** The view *)

Lemma truthy_of_positive (v : val) (w : Z) :
  ToNumber v = of_Z w -> 1 <= w -> ToBoolean v = true.
Proof.
  intros Hv Hw. destruct v as [| |b|n|s]; cbn in Hv.
  - discriminate.
  - injection Hv as Hv. lia.
  - destruct b; [reflexivity|]. injection Hv as Hv. lia.
  - subst n. cbn. destruct (Z.eqb_spec w 0); [lia|reflexivity].
  - destruct s; [|reflexivity]. injection Hv as Hv. lia.
Qed.

(** The window shown for a width [w]: the last [w] points. *)
Lemma visible_last_n (props : Props) (st : State) (w : Z) :
  1 <= w ->
  ToNumber (x_ticks props) = of_Z w ->
  array_length_ok (data st) ->
  visible props st = last_n (Z.to_nat w) (data st).
Proof.
  intros Hw Hnum Hok. unfold array_length_ok in Hok.
  unfold visible, xTicks, or_else.
  rewrite (truthy_of_positive _ w Hnum Hw), Hnum. unfold of_nat, last_n.
  destruct (Z.lt_ge_cases w (2 ^ 53)) as [Hsmall|Hbig].
  - rewrite sub_int by lia. rewrite Math_max_int2. rewrite slice_int by lia.
    f_equal. lia.
  - rewrite slice_not_positive.
    + replace (length (data st) - Z.to_nat w)%nat with 0%nat by lia. reflexivity.
    + unfold sub. rewrite neg_int. unfold add, of_Z.
      apply round_negative. cbn. lia.
Qed.

Lemma visible_default (sensor : val) (st : State) :
  array_length_ok (data st) ->
  visible {| sensorId := sensor; x_ticks := VUndefined |} st = last_n 20 (data st).
Proof.
  intros Hok. unfold array_length_ok in Hok.
  unfold visible, xTicks. cbn [x_ticks data].
  change (ToNumber (or_else VUndefined (VNum (of_Z DEFAULT_X_TICKS)))) with (of_Z 20).
  unfold of_nat, last_n.
  rewrite sub_int by lia. rewrite Math_max_int2. rewrite slice_int by lia.
  f_equal. lia.
Qed.

(** [C7] For a buffer of points whose values are finite numbers and a
    display width [w >= 1], [updateChart] draws
    [visible = points[max(len - w, 0) : len]], the last [w] points in their
    order (all of them while there are fewer), and [highestValueInView] is
    the greatest value among exactly these: one of their values, and at
    least each of them. *)
Theorem updateChart_view (props : Props) (st : State) (w : Z) :
  1 <= w ->
  ToNumber (x_ticks props) = of_Z w ->
  array_length_ok (data st) ->
  Forall (fun p => exists q, value p = VNum (Fin q)) (data st) ->
  let len := length (data st) in
  visible props st = drop (len - Z.to_nat w) (take len (data st)) /\
  length (visible props st) = Nat.min len (Z.to_nat w) /\
  (forall p, p ∈ visible props st ->
     exists q m, value p = VNum (Fin q) /\
                 highestValueInView props st = Fin m /\ (q <= m)%Q) /\
  (visible props st <> [] ->
     exists p, p ∈ visible props st /\ value p = VNum (highestValueInView props st)) /\
  (visible props st = [] -> highestValueInView props st = NegInf) /\
  updateChart props st =
    [ adjustAxes (visible props st);
      setSeriesData "sensor-data" (visible props st) false;
      setSeriesData "z-score" (zLine props st) false ].
Proof.
  intros Hw Hnum Hok Hfin len.
  pose proof (visible_last_n props st w Hw Hnum Hok) as Hvis.
  split; [rewrite Hvis; unfold last_n, len; now rewrite firstn_all|].
  split; [rewrite Hvis; apply last_n_length|].
  assert (Hvfin : Forall (fun p => exists q, value p = VNum (Fin q)) (visible props st)).
  { rewrite Hvis. unfold last_n. now apply Forall_drop. }
  unfold highestValueInView.
  assert (Hvals : exists qs,
             (fun p => ToNumber (value p)) <$> visible props st = Fin <$> qs /\
             Forall2 (fun p q => value p = VNum (Fin q)) (visible props st) qs).
  { clear Hvis. induction Hvfin as [|p l (q & Hq) _ (qs & E & F)].
    - exists []. split; [reflexivity|constructor].
    - exists (q :: qs). cbn. rewrite E, Hq. split; [reflexivity|now constructor]. }
  destruct Hvals as (qs & Hvals & Hrel). rewrite Hvals.
  split; [|split; [|split; [|reflexivity]]].
  - intros p Hp.
    apply list_elem_of_lookup in Hp as (i & Hi).
    destruct (Forall2_lookup_l _ _ _ _ _ Hrel Hi) as (q & Hqi & Hq).
    destruct (Math_max_finite qs) as (m & Hm & _ & Hall).
    { intros ->. discriminate. }
    exists q, m. split; [exact Hq|]. split; [exact Hm|].
    apply Hall. apply list_elem_of_lookup. eauto.
  - intros Hne.
    destruct (Math_max_finite qs) as (m & Hm & Hin & _).
    { intros ->. inversion Hrel; congruence. }
    apply list_elem_of_lookup in Hin as (i & Hi).
    destruct (Forall2_lookup_r _ _ _ _ _ Hrel Hi) as (p & Hpi & Hp).
    exists p. split; [apply list_elem_of_lookup; eauto|]. now rewrite Hm.
  - intros Hnil. rewrite Hnil in Hrel. inversion Hrel. reflexivity.
Qed.

(** Over a window of finite values, [highestValueInView] is the greatest of
    them. *)
Lemma highestValueInView_greatest (props : Props) (st : State) :
  Forall (fun p => exists q, value p = VNum (Fin q)) (visible props st) ->
  visible props st <> [] ->
  exists m,
    highestValueInView props st = Fin m /\
    (exists p, p ∈ visible props st /\ value p = VNum (Fin m)) /\
    (forall p q, p ∈ visible props st -> value p = VNum (Fin q) -> (q <= m)%Q).
Proof.
  intros Hfin Hne. unfold highestValueInView.
  assert (Hvals : exists qs,
             (fun p => ToNumber (value p)) <$> visible props st = Fin <$> qs /\
             Forall2 (fun p q => value p = VNum (Fin q)) (visible props st) qs).
  { clear Hne. induction Hfin as [|p l (q & Hq) _ (qs & E & F)].
    - exists []. split; [reflexivity|constructor].
    - exists (q :: qs). cbn. rewrite E, Hq. split; [reflexivity|now constructor]. }
  destruct Hvals as (qs & -> & Hrel).
  destruct (Math_max_finite qs) as (m & Hm & Hin & Hall).
  { intros ->. inversion Hrel; congruence. }
  exists m. split; [exact Hm|]. split.
  - apply list_elem_of_lookup in Hin as (i & Hi).
    destruct (Forall2_lookup_r _ _ _ _ _ Hrel Hi) as (p & Hpi & Hp).
    exists p. split; [apply list_elem_of_lookup; eauto|exact Hp].
  - intros p q Hp Hq. apply list_elem_of_lookup in Hp as (i & Hi).
    destruct (Forall2_lookup_l _ _ _ _ _ Hrel Hi) as (q' & Hqi & Hq').
    rewrite Hq in Hq'. injection Hq' as ->.
    apply Hall. apply list_elem_of_lookup. eauto.
Qed.

(** [C8] For a visible window of points with finite values, the z-score
    series has one point per visible point, in order, with the timestamp of
    that point; its value is 0 when the [zscore] of the point is falsy, and
    when it is truthy it is the greatest value of the window: the value of
    one of the visible points, and at least the value of each of them.  So
    every value of the series is 0 or that maximum, two points whose
    z-scores are both truthy (or both falsy) get the same value whatever
    the z-scores are, and the magnitude of a z-score is never drawn.  This
    is the series handed to the chart as ['z-score']. *)
Theorem zLine_is_peak_indicator (props : Props) (st : State) :
  Forall (fun p => exists q, value p = VNum (Fin q)) (visible props st) ->
  length (zLine props st) = length (visible props st) /\
  (forall i p, visible props st !! i = Some p ->
     exists z,
       zLine props st !! i = Some z /\
       timestamp z = timestamp p /\
       (ToBoolean (zscore p) = false -> value z = VNum (of_Z 0)) /\
       (ToBoolean (zscore p) = true ->
          exists m,
            value z = VNum (Fin m) /\
            (exists p', p' ∈ visible props st /\ value p' = VNum (Fin m)) /\
            (forall p' q, p' ∈ visible props st -> value p' = VNum (Fin q) ->
               (q <= m)%Q))) /\
  (forall z, z ∈ zLine props st ->
     value z = VNum (of_Z 0) \/
     exists m,
       value z = VNum (Fin m) /\
       (exists p', p' ∈ visible props st /\ value p' = VNum (Fin m)) /\
       (forall p' q, p' ∈ visible props st -> value p' = VNum (Fin q) ->
          (q <= m)%Q)) /\
  (forall i j p p',
     visible props st !! i = Some p -> visible props st !! j = Some p' ->
     ToBoolean (zscore p) = ToBoolean (zscore p') ->
     value <$> zLine props st !! i = value <$> zLine props st !! j) /\
  setSeriesData "z-score" (zLine props st) false ∈ updateChart props st.
Proof.
  intros Hfin.
  assert (Hlook : forall i p, visible props st !! i = Some p ->
            zLine props st !! i =
              Some {| timestamp := timestamp p;
                      value := VNum (if ToBoolean (zscore p)
                                     then highestValueInView props st else of_Z 0);
                      zscore := VUndefined |}).
  { intros i p Hp. unfold zLine. rewrite list_lookup_fmap, Hp. reflexivity. }
  assert (Hpeak : forall p, p ∈ visible props st ->
            exists m,
              VNum (highestValueInView props st) = VNum (Fin m) /\
              (exists p', p' ∈ visible props st /\ value p' = VNum (Fin m)) /\
              (forall p' q, p' ∈ visible props st -> value p' = VNum (Fin q) ->
                 (q <= m)%Q)).
  { intros p Hp.
    destruct (highestValueInView_greatest props st Hfin) as (m & Hm & Hatt & Hall).
    - intros Hnil. rewrite Hnil in Hp. now apply elem_of_nil in Hp.
    - exists m. rewrite Hm. auto. }
  split; [unfold zLine; apply length_fmap|].
  split; [|split; [|split]].
  - intros i p Hp. eexists. split; [apply (Hlook i p Hp)|]. cbn.
    split; [reflexivity|]. split.
    + intros ->. reflexivity.
    + intros ->. apply (Hpeak p). apply list_elem_of_lookup. eauto.
  - intros z Hz. unfold zLine in Hz. apply list_elem_of_fmap in Hz as (p & -> & Hp).
    cbn. destruct (ToBoolean (zscore p)); [right; now apply (Hpeak p)|now left].
  - intros i j p p' Hi Hj Heq. rewrite (Hlook i p Hi), (Hlook j p' Hj). cbn.
    now rewrite Heq.
  - unfold updateChart. set_solver.
Qed.

(** ** Mounting *)

(** [C9] as the code has it.  [componentDidMount] enforces the limit: with
    a [sensorId], it throws when ['x-ticks'] compares greater than 50 and
    sets the chart up when it does not (which includes an absent or
    non-numeric ['x-ticks']); for an integer width [w] it throws exactly
    when [50 < w]. *)
Theorem componentDidMount_limits_width (props : Props) :
  sensorId props <> VUndefined ->
  (gt_num (x_ticks props) (of_Z 50) = true ->
     componentDidMount props =
       Throw (Error "You cannot display more than 50 'x-ticks'. ")) /\
  (gt_num (x_ticks props) (of_Z 50) = false ->
     componentDidMount props =
       Return {| series := ["sensor"; "zline"];
                 sensor := sensorId props;
                 listening := "reading" :: SOCKETIO_ERRORS |}) /\
  (forall w, ToNumber (x_ticks props) = of_Z w ->
     gt_num (x_ticks props) (of_Z 50) = (50 <? w)) /\
  (x_ticks props = VUndefined -> gt_num (x_ticks props) (of_Z 50) = false).
Proof.
  intros Hid. unfold componentDidMount, MAX_POINTS_TO_STORE.
  repeat split.
  - intros ->. destruct (sensorId props); congruence.
  - intros ->. destruct (sensorId props); congruence.
  - intros w Hw. unfold gt_num. rewrite Hw. apply lt_int.
  - intros ->. reflexivity.
Qed.

(** ** Transport errors *)

(** [C10] [setError] empties the buffer, clears [connected] and sets the
    error text in one state update, and does not touch [lastTimestamp]: a
    reading stored before the error leaves its time on display after it. *)
Theorem setError_keeps_lastTimestamp (type error : string) (st : State) :
  let st' := setError type error st in
  data st' = [] /\
  connected st' = false /\
  Chart.error st' = VStr (error +:+ " | " +:+ type) /\
  lastTimestamp st' = lastTimestamp st /\
  (forall r st0, storeReading r st0 = Return st ->
     lastTimestamp st' = Some (toLocaleTimeString (timestamp r))).
Proof.
  cbn. repeat split.
  intros r st0. unfold storeReading, storeReading_updater. rewrite last_snoc. cbn.
  intros [= <-]. reflexivity.
Qed.

(** [storeReading] always returns, and marks the component connected. *)
Lemma storeReading_returns (r : Point) (st : State) :
  exists st',
    storeReading r st = Return st' /\
    connected st' = true /\
    Chart.error st' = VBool false /\
    lastTimestamp st' = Some (toLocaleTimeString (timestamp r)).
Proof.
  unfold storeReading, storeReading_updater. rewrite last_snoc. cbn.
  eexists; repeat split.
Qed.

(** Any run of error events leaves [lastTimestamp] as it was. *)
Lemma errors_keep_lastTimestamp (evs : list Event) : forall st,
  Forall is_error_event evs ->
  exists st',
    handle_all evs st = Return st' /\ lastTimestamp st' = lastTimestamp st.
Proof.
  induction evs as [|ev evs IH]; intros st Hall.
  - exists st. split; reflexivity.
  - inversion Hall as [|? ? Hev Hrest]; subst.
    destruct ev as [r|type error]; [destruct Hev|].
    cbn [handle_all handle]. cbn [mbind completion_bind bind].
    destruct (IH (setError type error st) Hrest) as (st' & Hrun & Hl).
    exists st'. split; [exact Hrun|]. rewrite Hl. reflexivity.
Qed.

End ChartSpec.

(* ===================================================================== *)
(** * The client: what the component keeps and shows                     *)
(* ===================================================================== *)

Module ChartLaws.
Import JS JSFacts Chart ChartSpec.

(** ** Events *)

Lemma handle_returns (ev : Event) (st : State) :
  exists st', handle ev st = Return st'.
Proof.
  destruct ev as [r|type error]; cbn [handle].
  - destruct (storeReading_returns r st) as (st' & H & _). eauto.
  - eauto.
Qed.

Lemma handle_all_snoc (evs : list Event) (ev : Event) : forall st,
  handle_all (evs ++ [ev]) st = handle_all evs st ≫= handle ev.
Proof.
  induction evs as [|e evs IH]; intros st; cbn [handle_all app].
  - change (Return st ≫= handle ev) with (handle ev st).
    destruct (handle ev st); reflexivity.
  - destruct (handle e st) as [st1|]; cbn; [apply IH|reflexivity].
Qed.

Lemma handle_all_returns (evs : list Event) : forall st,
  exists st', handle_all evs st = Return st'.
Proof.
  induction evs as [|e evs IH]; intros st; cbn [handle_all]; [eauto|].
  destruct (handle_returns e st) as (st1 & ->). cbn. apply IH.
Qed.

Lemma handle_all_window (evs : list Event) : forall st acc,
  data st = last_n 51 acc ->
  exists st',
    handle_all evs st = Return st' /\
    data st' = last_n 51 (readings_since_error evs acc).
Proof.
  induction evs as [|[r|type error] evs IH]; intros st acc Hd;
    cbn [handle_all handle readings_since_error].
  - eauto.
  - rewrite storeReading_data by (rewrite Hd, last_n_length; lia).
    cbn. apply IH. cbn [data]. rewrite Hd. apply last_n_app.
  - cbn. apply IH. reflexivity.
Qed.

(** [X11] Whatever events the socket delivers, in whatever order, the
    handlers never throw and the buffer holds the last 51 of the readings
    received since the last error event (all of them while they are
    fewer): errors empty it, and it never holds more than 51 points. *)
Theorem window_after_events (evs : list Event) :
  exists st',
    handle_all evs initial = Return st' /\
    data st' = last_n 51 (readings_since_error evs []) /\
    (length (data st') <= 51)%nat.
Proof.
  destruct (handle_all_window evs initial []) as (st' & Hrun & Hd); [reflexivity|].
  exists st'. split; [exact Hrun|]. split; [exact Hd|].
  rewrite Hd, last_n_length. lia.
Qed.

(** [X12] [storeReading] is first in, first out: while the buffer holds at
    most 50 points the reading is added at the end and nothing is dropped;
    once it holds 51, the oldest point leaves and the others keep their
    order in front of the new one. *)
Theorem storeReading_first_in_first_out (r : Point) (st : State) :
  exists st',
    storeReading r st = Return st' /\
    ((length (data st) <= 50)%nat -> data st' = data st ++ [r]) /\
    (forall p rest, data st = p :: rest -> length rest = 50%nat ->
       data st' = rest ++ [r]).
Proof.
  destruct (storeReading_returns r st) as (st' & Hrun & _).
  exists st'. split; [exact Hrun|]. split.
  - intros Hlen. rewrite storeReading_data in Hrun by lia.
    injection Hrun as <-. cbn [data]. apply last_n_all.
    rewrite length_app; cbn. lia.
  - intros p rest Hd Hlen. rewrite storeReading_data in Hrun by (rewrite Hd; cbn; lia).
    injection Hrun as <-. cbn [data]. unfold last_n. rewrite Hd.
    cbn [app length]. rewrite length_app, Hlen. reflexivity.
Qed.

(** [X13] The time shown as last reading is that of the last reading ever
    received, however many error events came after it, and is empty only
    while no reading was received. *)
Theorem lastTimestamp_after_events (evs : list Event) :
  exists st',
    handle_all evs initial = Return st' /\
    lastTimestamp st' =
      (fun r => toLocaleTimeString (timestamp r)) <$> last (received evs).
Proof.
  induction evs as [|ev evs IH] using rev_ind.
  - exists initial. split; reflexivity.
  - destruct IH as (st1 & Hrun & Hl). rewrite handle_all_snoc, Hrun. cbn.
    unfold received in *. rewrite omap_app. cbn [omap].
    destruct ev as [r|type error].
    + destruct (storeReading_returns r st1) as (st' & Hst & _ & _ & Hl').
      exists st'. split; [exact Hst|]. cbn. rewrite last_snoc. exact Hl'.
    + eexists. split; [reflexivity|]. cbn. rewrite app_nil_r. exact Hl.
Qed.

(** ** What [render] shows *)

Lemma error_text_truthy (type error : string) :
  ToBoolean (VStr (error +:+ " | " +:+ type)) = true.
Proof. destruct error; reflexivity. Qed.

(** [X14] The page is in one of three states, decided by the last event:
    before any event the badge is the red "Disconnected from" and the chart
    is not faded; after a reading the badge is the green "Connected to", the
    error line is empty and the chart is not faded; after an error event the
    badge is red, the error line shows the error and its type, the chart is
    faded and the buffer is empty. *)
Theorem render_after_events (props : Props) (evs : list Event) :
  exists st',
    handle_all evs initial = Return st' /\
    let v := render props st' in
    match last evs with
    | None =>
        status_class v = "status danger-bg" /\
        status_text v = "Disconnected from" /\
        container_class v = "chart-container " /\
        last_reading v = None
    | Some (reading_event r) =>
        status_class v = "status success-bg" /\
        status_text v = "Connected to" /\
        error_line v = VBool false /\
        container_class v = "chart-container " /\
        last_reading v = Some (toLocaleTimeString (timestamp r))
    | Some (error_event type error) =>
        status_class v = "status danger-bg" /\
        status_text v = "Disconnected from" /\
        error_line v = VStr (error +:+ " | " +:+ type) /\
        container_class v = "chart-container faded" /\
        data st' = []
    end.
Proof.
  destruct evs as [|ev evs _] using rev_ind.
  - exists initial. split; [reflexivity|]. cbn. auto.
  - destruct (handle_all_returns evs initial) as (st1 & Hrun).
    rewrite handle_all_snoc, Hrun, last_snoc. cbn [mbind completion_bind bind].
    destruct ev as [r|type error]; cbn [handle].
    + destruct (storeReading_returns r st1) as (st' & Hst & Hc & He & Hl).
      exists st'. split; [exact Hst|]. unfold render; cbn.
      rewrite Hc, He, Hl. cbn. auto.
    + eexists. split; [reflexivity|]. unfold render.
      cbn [status_class status_text error_line container_class].
      change (connected (setError type error st1)) with false.
      change (Chart.error (setError type error st1))
        with (VStr (error +:+ " | " +:+ type)).
      rewrite error_text_truthy. cbn. auto.
Qed.

(** ** The view at the edges *)

Lemma fold_max2_NaN (l : list number) : fold_left max2 l NaN = NaN.
Proof. induction l as [|x l IH]; [reflexivity|exact IH]. Qed.

Lemma Math_max_NaN (l : list number) : NaN ∈ l -> Math_max l = NaN.
Proof.
  unfold Math_max. generalize NegInf.
  induction l as [|x l IH]; intros acc Hin.
  - now apply elem_of_nil in Hin.
  - cbn [fold_left]. apply elem_of_cons in Hin as [<-|Hin]; [|now apply IH].
    replace (max2 acc NaN) with NaN by (destruct acc; reflexivity).
    apply fold_max2_NaN.
Qed.

Lemma truthy_of_nonzero (v : val) (w : Z) :
  ToNumber v = of_Z w -> w <> 0 -> ToBoolean v = true.
Proof.
  intros Hv Hw. destruct v as [| |b|n|s]; cbn in Hv.
  - discriminate.
  - injection Hv as Hv. lia.
  - destruct b; [reflexivity|]. injection Hv as Hv. lia.
  - subst n. cbn. destruct (Z.eqb_spec w 0); [lia|reflexivity].
  - destruct s; [|reflexivity]. injection Hv as Hv. lia.
Qed.

(** [X15] A width that is falsy ([undefined], [null], [0], [NaN], [false] or
    the empty string) is replaced by the default: the chart shows the last
    20 points and announces 20 readings.  In particular a width of 0 does
    not show an empty chart. *)
Theorem updateChart_default_width (props : Props) (st : State) :
  ToBoolean (x_ticks props) = false ->
  array_length_ok (data st) ->
  visible props st = last_n 20 (data st) /\
  showing_last (render props st) = VNum (of_Z 20).
Proof.
  intros Hf Hok. unfold array_length_ok in Hok.
  unfold render, visible, xTicks, or_else; cbn [showing_last]. rewrite Hf.
  split; [|reflexivity].
  change (ToNumber (VNum (of_Z DEFAULT_X_TICKS))) with (of_Z 20).
  unfold of_nat, last_n.
  rewrite sub_int by lia. rewrite Math_max_int2. rewrite slice_int by lia.
  f_equal. lia.
Qed.

(** [X16] A width that is truthy but does not read as a number (the text
    ["all"], say) passes the check of [componentDidMount] and makes the
    chart show the whole buffer: the start of the slice is [NaN]. *)
Theorem updateChart_width_not_a_number (props : Props) (st : State) :
  ToBoolean (x_ticks props) = true ->
  ToNumber (x_ticks props) = NaN ->
  gt_num (x_ticks props) (of_Z MAX_POINTS_TO_STORE) = false /\
  xTicks props st = NaN /\
  visible props st = data st.
Proof.
  intros Ht Hn. unfold gt_num, visible, xTicks, or_else. rewrite Ht, Hn.
  repeat split.
Qed.

(** [X17] A negative width shows nothing: the slice starts past the end of
    the buffer, so no point is drawn, the greatest value in view is
    [-Infinity] and the z-score series is empty. *)
Theorem updateChart_negative_width (props : Props) (st : State) (w : Z) :
  - 2 ^ 52 < w < 0 ->
  ToNumber (x_ticks props) = of_Z w ->
  array_length_ok (data st) ->
  visible props st = [] /\
  highestValueInView props st = NegInf /\
  zLine props st = [].
Proof.
  intros Hw Hnum Hok. unfold array_length_ok in Hok.
  assert (Hvis : visible props st = []).
  { unfold visible, xTicks, or_else.
    rewrite (truthy_of_nonzero _ w Hnum) by lia. rewrite Hnum. unfold of_nat.
    rewrite sub_int by lia. rewrite Math_max_int2. rewrite slice_int by lia.
    apply drop_ge. lia. }
  unfold zLine, highestValueInView. rewrite Hvis. repeat split.
Qed.

(** [X19] One visible point whose [value] does not read as a number (it is
    missing, or not numeric) spoils the peak series: the greatest value in
    view is [NaN], and every visible point flagged as a peak is drawn at
    [NaN]. *)
Theorem updateChart_value_not_a_number (props : Props) (st : State) (p : Point) :
  p ∈ visible props st ->
  ToNumber (value p) = NaN ->
  highestValueInView props st = NaN /\
  (forall i q, visible props st !! i = Some q -> ToBoolean (zscore q) = true ->
     value <$> zLine props st !! i = Some (VNum NaN)).
Proof.
  intros Hin Hnan.
  assert (Hhigh : highestValueInView props st = NaN).
  { unfold highestValueInView. apply Math_max_NaN. rewrite <- Hnan.
    apply (list_elem_of_fmap_2 (fun p => ToNumber (value p))). exact Hin. }
  split; [exact Hhigh|].
  intros i q Hq Hz. unfold zLine. rewrite list_lookup_fmap, Hq. cbn.
  now rewrite Hz, Hhigh.
Qed.

(** [X20] The check at mount and the size of the buffer fit together: a
    chart that mounted with an integer width [w >= 1] shows exactly [w]
    points once the buffer is full (51 points), and all the points it has
    while these are fewer than [w]. *)
Theorem mounted_chart_shows_width (props : Props) (st : State) (m : Mounted) (w : Z) :
  componentDidMount props = Return m ->
  1 <= w ->
  ToNumber (x_ticks props) = of_Z w ->
  (length (data st) <= 51)%nat ->
  w <= 50 /\
  length (visible props st) = Nat.min (length (data st)) (Z.to_nat w) /\
  (length (data st) = 51%nat -> length (visible props st) = Z.to_nat w).
Proof.
  intros Hm Hw Hnum Hlen.
  assert (Hle : w <= 50).
  { unfold componentDidMount, gt_num, MAX_POINTS_TO_STORE in Hm.
    rewrite Hnum, lt_int in Hm.
    destruct (sensorId props); try discriminate;
      destruct (Z.ltb_spec 50 w); try discriminate; lia. }
  assert (Hvis : visible props st = last_n (Z.to_nat w) (data st)).
  { apply visible_last_n; try assumption. unfold array_length_ok. lia. }
  split; [exact Hle|]. rewrite Hvis, last_n_length. split; [reflexivity|].
  intros ->. lia.
Qed.

End ChartLaws.

(** ** Examples on a concrete table *)

Module ApiExamples.
Import JS Api ApiSpec.

(** [C3] counterexample: the handler run a second time for ["a"], or run
    for an id that never connected, throws. *)
Lemma onDisconnect_twice_throws :
  onDisconnect "a" sample_live = Return sample_left /\
  onDisconnect "a" sample_left = Throw (TypeError "interval") /\
  onDisconnect "b" sample_live = Throw (TypeError "interval").
Proof. repeat split; vm_compute; reflexivity. Qed.

(** [C4] counterexample: with the [sensor] parameter absent, not numeric,
    zero or beyond the table, the handler returns, the session is
    registered and its interval is set. *)
Lemma onConnect_invalid_sensor_registers :
  let registered n :=
    Return {| connections :=
                {[ "a" := Some {| sensorId := n; index := of_Z 0; interval := 0%nat |} ]};
              timers := {[ 0%nat := "a" ]};
              next_timer := 1%nat;
              emitted := [] |} in
  onConnect "a" None init = registered NaN /\
  onConnect "a" (Some "abc") init = registered NaN /\
  onConnect "a" (Some "0") init = registered (of_Z 0) /\
  onConnect "a" (Some "4") init = registered (of_Z 4) /\
  length sample_data = 3%nat.
Proof. repeat split; vm_compute; reflexivity. Qed.

(** [C6] at work: the first firing for ["a"] on the sample table. *)
Lemma emitData_emits_and_advances_witness :
  (array_length_ok sample_data /\
   conn_of sample_live "a" =
     Some {| sensorId := of_Z 1; index := of_Z 0; interval := 0%nat |}) /\
  exists st',
    emitData sample_data "a" "a" 1000 sample_live = Return st' /\
    emitted st' =
      emitted sample_live ++
        [("a", {| timestamp := 1000; value := VNum (of_Z 10); zscore := VNum (of_Z 0) |})] /\
    conn_of st' "a" =
      Some {| sensorId := of_Z 1; index := of_Z 1; interval := 0%nat |} /\
    (forall id', id' <> "a" -> conn_of st' id' = conn_of sample_live id') /\
    timers st' = timers sample_live.
Proof.
  split; [split; [vm_compute; reflexivity | reflexivity]|].
  apply (emitData_emits_and_advances sample_data sample_live "a" "a" 1000
           {| sensorId := of_Z 1; index := of_Z 0; interval := 0%nat |}
           1 0
           {| readings := [of_Z 10; of_Z 30; of_Z 20];
              zScores := [of_Z 0; of_Z 1; of_Z 0] |}
           (of_Z 10)).
  - vm_compute; reflexivity.
  - vm_compute; reflexivity.
  - reflexivity.
  - reflexivity.
  - lia.
  - reflexivity.
  - reflexivity.
  - reflexivity.
Defined.

(** [C5] at work: four firings for ["a"] on its series of three readings. *)
Lemma cursor_cycles_and_stream_repeats_witness :
  (array_length_ok sample_data /\
   conn_of sample_live "a" =
     Some {| sensorId := of_Z 1; index := of_Z 0; interval := 0%nat |}) /\
  exists st' conn' sent,
    emissions sample_data "a" [1000; 3000; 5000; 7000] sample_live = Return st' /\
    timers st' = timers sample_live /\
    conn_of st' "a" = Some conn' /\
    index conn' = of_Z 1 /\
    (4 = 3 -> index conn' = of_Z 0)%nat /\
    pairs st' = pairs sample_live ++ sent /\
    length sent = 4%nat /\
    (forall j, (j < 4)%nat ->
       sent !! j = Some (element [of_Z 10; of_Z 30; of_Z 20] (of_nat (j mod 3)),
                         element [of_Z 0; of_Z 1; of_Z 0] (of_nat (j mod 3)))) /\
    (forall j, (j + 3 < 4)%nat -> sent !! (j + 3)%nat = sent !! j).
Proof.
  split; [split; [vm_compute; reflexivity | reflexivity]|].
  apply (cursor_cycles_and_stream_repeats sample_data sample_live "a"
           {| sensorId := of_Z 1; index := of_Z 0; interval := 0%nat |}
           1
           {| readings := [of_Z 10; of_Z 30; of_Z 20];
              zScores := [of_Z 0; of_Z 1; of_Z 0] |}
           [1000; 3000; 5000; 7000]).
  - vm_compute; reflexivity.
  - vm_compute; reflexivity.
  - reflexivity.
  - reflexivity.
  - lia.
  - reflexivity.
  - reflexivity.
  - simpl; lia.
Defined.

(** Client ["a"] connects to sensor 1, its interval fires three times, it
    leaves, and the scheduler finds nothing to run under its handle. *)
Example connect_three_ticks_disconnect :
  (st1 ← onConnect "a" (Some "1") init;
   st2 ← fire sample_data 0 1000 st1;
   st3 ← fire sample_data 0 3000 st2;
   st4 ← fire sample_data 0 5000 st3;
   st5 ← onDisconnect "a" st4;
   fire sample_data 0 7000 st5)
  = Return
      {| connections := {[ "a" := None ]};
         timers := ∅;
         next_timer := 1%nat;
         emitted :=
           [ ("a", {| timestamp := 1000; value := VNum (of_Z 10); zscore := VNum (of_Z 0) |});
             ("a", {| timestamp := 3000; value := VNum (of_Z 30); zscore := VNum (of_Z 1) |});
             ("a", {| timestamp := 5000; value := VNum (of_Z 20); zscore := VNum (of_Z 0) |}) ] |}.
Proof. vm_compute; reflexivity. Qed.

(** A client that connects without a [sensor] parameter gets a session,
    and the first firing of its interval throws. *)
Example connect_without_sensor_then_tick :
  (st1 ← onConnect "a" None init; fire sample_data 0 1000 st1)
  = Throw (TypeError "readings").
Proof. vm_compute; reflexivity. Qed.

End ApiExamples.

Module ChartExamples.
Import JS Chart ChartSpec.

(** [C7] at work: the chart with [x-ticks="20"] over a buffer of 50 points
    shows points 31 to 50, and the greatest value in view is 50. *)
Lemma updateChart_view_witness :
  (ToNumber (x_ticks sample_props) = of_Z 20 /\
   array_length_ok (data sample_state) /\
   Forall (fun p => exists q, value p = VNum (Fin q)) (data sample_state)) /\
  (visible sample_props sample_state = drop (50 - 20) (take 50 (data sample_state)) /\
   length (visible sample_props sample_state) = Nat.min 50 20 /\
   (forall p, p ∈ visible sample_props sample_state ->
      exists q m, value p = VNum (Fin q) /\
                  highestValueInView sample_props sample_state = Fin m /\ (q <= m)%Q) /\
   (visible sample_props sample_state <> [] ->
      exists p, p ∈ visible sample_props sample_state /\
                value p = VNum (highestValueInView sample_props sample_state)) /\
   (visible sample_props sample_state = [] ->
      highestValueInView sample_props sample_state = NegInf) /\
   updateChart sample_props sample_state =
     [ adjustAxes (visible sample_props sample_state);
       setSeriesData "sensor-data" (visible sample_props sample_state) false;
       setSeriesData "z-score" (zLine sample_props sample_state) false ]).
Proof.
  assert (Hfin : Forall (fun p => exists q, value p = VNum (Fin q)) (data sample_state)).
  { apply Forall_fmap, Forall_true. intros i; cbn. eexists; reflexivity. }
  split; [split; [reflexivity|split; [vm_compute; reflexivity|exact Hfin]]|].
  apply (updateChart_view sample_props sample_state 20).
  - lia.
  - reflexivity.
  - vm_compute; reflexivity.
  - exact Hfin.
Defined.

(** [C8] at work: the z-score series of the same chart. *)
Lemma zLine_is_peak_indicator_witness :
  Forall (fun p => exists q, value p = VNum (Fin q)) (visible sample_props sample_state) /\
  length (zLine sample_props sample_state) = length (visible sample_props sample_state) /\
  (forall i p, visible sample_props sample_state !! i = Some p ->
     exists z,
       zLine sample_props sample_state !! i = Some z /\
       timestamp z = timestamp p /\
       (ToBoolean (zscore p) = false -> value z = VNum (of_Z 0)) /\
       (ToBoolean (zscore p) = true ->
          exists m,
            value z = VNum (Fin m) /\
            (exists p', p' ∈ visible sample_props sample_state /\ value p' = VNum (Fin m)) /\
            (forall p' q, p' ∈ visible sample_props sample_state ->
               value p' = VNum (Fin q) -> (q <= m)%Q))) /\
  (forall z, z ∈ zLine sample_props sample_state ->
     value z = VNum (of_Z 0) \/
     exists m,
       value z = VNum (Fin m) /\
       (exists p', p' ∈ visible sample_props sample_state /\ value p' = VNum (Fin m)) /\
       (forall p' q, p' ∈ visible sample_props sample_state ->
          value p' = VNum (Fin q) -> (q <= m)%Q)) /\
  (forall i j p p',
     visible sample_props sample_state !! i = Some p ->
     visible sample_props sample_state !! j = Some p' ->
     ToBoolean (zscore p) = ToBoolean (zscore p') ->
     value <$> zLine sample_props sample_state !! i
       = value <$> zLine sample_props sample_state !! j) /\
  setSeriesData "z-score" (zLine sample_props sample_state) false
    ∈ updateChart sample_props sample_state.
Proof.
  assert (Hfin : Forall (fun p => exists q, value p = VNum (Fin q))
                        (visible sample_props sample_state)).
  { change (visible sample_props sample_state) with (drop 30 (sample_points 50)).
    apply Forall_drop, Forall_fmap, Forall_true. intros i; cbn. eexists; reflexivity. }
  split; [exact Hfin|].
  apply (zLine_is_peak_indicator sample_props sample_state). exact Hfin.
Defined.

Example zLine_sample :
  value <$> zLine sample_props sample_state = replicate 20 (VNum (of_Z 50)).
Proof. vm_compute; reflexivity. Qed.

Example updateChart_sample :
  visible sample_props sample_state = drop 30 (sample_points 50) /\
  highestValueInView sample_props sample_state = of_Z 50.
Proof. split; vm_compute; reflexivity. Qed.

(** [C9] counterexample: a chart asked for 51 ticks, as a number or as the
    text of an attribute, is refused when it mounts. *)
Lemma componentDidMount_51_ticks_throws :
  componentDidMount {| sensorId := VStr "1"; x_ticks := VNum (of_Z 51) |} =
    Throw (Error "You cannot display more than 50 'x-ticks'. ") /\
  componentDidMount {| sensorId := VStr "1"; x_ticks := VStr "51" |} =
    Throw (Error "You cannot display more than 50 'x-ticks'. ").
Proof. split; vm_compute; reflexivity. Qed.

(** [C9] at work: the chart with [x-ticks="20"] mounts. *)
Lemma componentDidMount_limits_width_witness :
  sensorId sample_props <> VUndefined /\
  (gt_num (x_ticks sample_props) (of_Z 50) = true ->
     componentDidMount sample_props =
       Throw (Error "You cannot display more than 50 'x-ticks'. ")) /\
  (gt_num (x_ticks sample_props) (of_Z 50) = false ->
     componentDidMount sample_props =
       Return {| series := ["sensor"; "zline"];
                 sensor := sensorId sample_props;
                 listening := "reading" :: SOCKETIO_ERRORS |}) /\
  (forall w, ToNumber (x_ticks sample_props) = of_Z w ->
     gt_num (x_ticks sample_props) (of_Z 50) = (50 <? w)) /\
  (x_ticks sample_props = VUndefined -> gt_num (x_ticks sample_props) (of_Z 50) = false).
Proof.
  split; [discriminate|].
  apply (componentDidMount_limits_width sample_props). discriminate.
Defined.

Example componentDidMount_sample :
  componentDidMount sample_props =
    Return {| series := ["sensor"; "zline"];
              sensor := VStr "2";
              listening := ["reading"; "reconnect_error"; "connect_error";
                            "connect_timeout"; "connect_failed"; "error"] |}.
Proof. vm_compute; reflexivity. Qed.

(** The window one reading after another: it reaches 51 points with the
    51st reading and stays there. *)
Example window_lengths :
  (fun n => length <$> (match storeReadings (sample_points n) initial with
                        | Return st => Some (data st)
                        | Throw _ => None
                        end)) <$> [0; 1; 50; 51; 52; 60]%nat
  = Some <$> [0; 1; 50; 51; 51; 51]%nat.
Proof. vm_compute; reflexivity. Qed.

End ChartExamples.

(** ** String to number conversions used above, checked on examples *)

Module NumberExamples.
Import JS.

Example Number_absent : Api.Number None = NaN.
Proof. reflexivity. Qed.

Example Number_integers :
  StringToNumber <$> ["1"; " 12 "; " "; "1.0"; "1e3"; "0x1F"; "5."; ".5e1"; "-3"]
  = of_Z <$> [1; 12; 0; 1; 1000; 31; 5; 5; -3].
Proof. vm_compute; reflexivity. Qed.

Example Number_not_numeric :
  StringToNumber <$> ["abc"; "12px"; "1e"; "."; "-0x10"; "1,2"; "0x"]
  = [NaN; NaN; NaN; NaN; NaN; NaN; NaN].
Proof. vm_compute; reflexivity. Qed.

Example Number_rounding :
  StringToNumber <$>
    ["0.5"; "0.1"; "0.99999999999999999999"; "9007199254740993"; "1e309"; "-Infinity";
     "5e-324"; "2e-324"]
  = [Fin (1 # 2); Fin (3602879701896397 # 36028797018963968); of_Z 1;
     of_Z 9007199254740992; PosInf; NegInf;
     Fin (1 # Z.to_pos (2 ^ 1074)); of_Z 0].
Proof. vm_compute; reflexivity. Qed.

End NumberExamples.

(** ** The laws of the server and of the component on examples *)

Module ApiLawExamples.
Import JS Api ApiSpec ApiLaws.

Lemma sample_live_reachable : reachable sample_data sample_live.
Proof.
  eapply (reachable_connect sample_data init sample_live "a" (Some "1")).
  - apply reachable_init.
  - vm_compute; reflexivity.
  - vm_compute; reflexivity.
Defined.

Lemma sample_unbound_reachable : reachable sample_data sample_unbound.
Proof.
  eapply (reachable_connect sample_data init sample_unbound "a" None).
  - apply reachable_init.
  - vm_compute; reflexivity.
  - vm_compute; reflexivity.
Defined.

Lemma sample_streaming_reachable : reachable sample_data sample_streaming.
Proof.
  eapply (reachable_fire sample_data sample_live sample_streaming 0 1000).
  - apply sample_live_reachable.
  - vm_compute; reflexivity.
Defined.

Lemma sample_left_reachable : reachable sample_data sample_left.
Proof.
  eapply (reachable_disconnect sample_data sample_live sample_left "a").
  - apply sample_live_reachable.
  - vm_compute; reflexivity.
Defined.

(** [C2] at work: the server after ["a"] came and left. *)
Lemma firing_after_removal_is_dropped_witness :
  conn_of sample_left "a" = None /\
  (forall h, timers sample_left !! h <> Some "a") /\
  (forall st0 conn now,
     conn_of st0 "a" = Some conn -> onDisconnect "a" st0 = Return sample_left ->
     fire sample_data (interval conn) now sample_left = Return sample_left) /\
  (forall h now,
     fire sample_data h now sample_left <> Throw (TypeError "sensorId") /\
     forall st', fire sample_data h now sample_left = Return st' ->
       conn_of st' "a" = None /\
       (emitted st' = emitted sample_left \/
        exists id' r, id' <> "a" /\ emitted st' = emitted sample_left ++ [(id', r)])).
Proof.
  split; [reflexivity|].
  apply (firing_after_removal_is_dropped sample_data sample_left "a").
  - apply sample_left_reachable.
  - reflexivity.
Defined.

(** [X2] at work: ["a"] and ["b"] fire in either order. *)
Lemma emitData_commute_witness :
  "a" <> "b" /\
  match (st1 ← emitData sample_data "a" "a" 1000 sample_two;
         emitData sample_data "b" "b" 1001 st1),
        (st2 ← emitData sample_data "b" "b" 1001 sample_two;
         emitData sample_data "a" "a" 1000 st2) with
  | Return a, Return b =>
      connections a = connections b /\
      timers a = timers b /\
      next_timer a = next_timer b /\
      exists r1 r2 s1 s2,
        emitData sample_data "a" "a" 1000 sample_two = Return s1 /\
        emitted s1 = emitted sample_two ++ [("a", r1)] /\
        emitData sample_data "b" "b" 1001 sample_two = Return s2 /\
        emitted s2 = emitted sample_two ++ [("b", r2)] /\
        emitted a = emitted sample_two ++ [("a", r1); ("b", r2)] /\
        emitted b = emitted sample_two ++ [("b", r2); ("a", r1)]
  | Throw _, Throw _ => True
  | _, _ => False
  end.
Proof.
  split; [discriminate|].
  apply (emitData_commute sample_data sample_two "a" "b" "a" "b" 1000 1001).
  discriminate.
Defined.

(** [X3] at work: the session of a client that sent no [sensor]. *)
Lemma emitData_sensor_out_of_range_witness :
  conn_of sample_unbound "a" =
    Some {| sensorId := NaN; index := of_Z 0; interval := 0%nat |} /\
  outcome sample_unbound (emitData sample_data "a" "a" 1000 sample_unbound)
    = (sample_unbound, Some (TypeError "readings")).
Proof.
  split; [reflexivity|].
  apply (emitData_sensor_out_of_range sample_data sample_unbound "a" "a" 1000
           {| sensorId := NaN; index := of_Z 0; interval := 0%nat |}).
  - reflexivity.
  - left; reflexivity.
Defined.

(** [X4] at work: sensor 1 of a table whose series is empty. *)
Lemma emitData_empty_series_witness :
  get sample_empty_data (sub (of_Z 1) (of_Z 1)) = Some {| readings := []; zScores := [] |} /\
  exists st' r,
    emitData sample_empty_data "a" "a" 1000 sample_live = Return st' /\
    emitted st' = emitted sample_live ++ [("a", r)] /\
    timestamp r = 1000 /\
    value r = VUndefined /\
    (of_Z 0 = NaN -> zscore r = VUndefined) /\
    conn_of st' "a" =
      Some {| sensorId := of_Z 1; index := NaN; interval := 0%nat |}.
Proof.
  split; [reflexivity|].
  apply (emitData_empty_series sample_empty_data sample_live "a" "a" 1000
           {| sensorId := of_Z 1; index := of_Z 0; interval := 0%nat |}
           {| readings := []; zScores := [] |}).
  - reflexivity.
  - reflexivity.
  - reflexivity.
  - left; reflexivity.
Defined.

(** [X5] at work: the server with one client. *)
Lemma reachable_one_interval_per_session_witness :
  (forall id conn, conn_of sample_live id = Some conn ->
     timers sample_live !! interval conn = Some id) /\
  (forall h id, timers sample_live !! h = Some id ->
     exists conn, conn_of sample_live id = Some conn /\ interval conn = h) /\
  (forall id1 id2 c1 c2,
     conn_of sample_live id1 = Some c1 -> conn_of sample_live id2 = Some c2 ->
     interval c1 = interval c2 -> id1 = id2).
Proof.
  apply (reachable_one_interval_per_session sample_data sample_live).
  apply sample_live_reachable.
Defined.

(** [X6] at work: the interval of the client that sent no [sensor]. *)
Lemma fire_finds_its_session_witness :
  fire sample_data 0 1000 sample_unbound = Throw (TypeError "readings") /\
  TypeError "readings" = TypeError "readings" /\
  exists id conn,
    timers sample_unbound !! 0%nat = Some id /\ conn_of sample_unbound id = Some conn /\
    get sample_data (sub (sensorId conn) (of_Z 1)) = None.
Proof.
  split; [reflexivity|].
  apply (fire_finds_its_session sample_data sample_unbound 0 1000 (TypeError "readings")).
  - apply sample_unbound_reachable.
  - reflexivity.
Defined.

(** [X7] at work: the first client of a fresh server comes and goes. *)
Lemma connect_then_disconnect_witness :
  connections init !! "a" = None /\
  exists st1 st2,
    onConnect "a" (Some "1") init = Return st1 /\
    onDisconnect "a" st1 = Return st2 /\
    timers st2 = timers init /\
    emitted st2 = emitted init /\
    conn_of st2 "a" = None /\
    (forall id', id' <> "a" -> conn_of st2 id' = conn_of init id') /\
    next_timer st2 = S (next_timer init).
Proof.
  split; [reflexivity|].
  apply (connect_then_disconnect sample_data init "a" (Some "1")).
  - apply reachable_init.
  - reflexivity.
Defined.

(** [X8] at work: the reading sent to ["a"]. *)
Lemma reachable_sends_to_connected_witness :
  is_Some (connections sample_streaming !! "a").
Proof.
  apply (reachable_sends_to_connected sample_data sample_streaming
           ("a", {| timestamp := 1000; value := VNum (of_Z 10); zscore := VNum (of_Z 0) |})).
  - apply sample_streaming_reachable.
  - apply list_elem_of_here.
Defined.

(** [X9] at work: the cursor of ["a"] after its first firing. *)
Lemma reachable_cursor_in_range_witness :
  exists i r,
    of_Z 1 = of_nat i /\ (i < 3)%nat /\
    [of_Z 10; of_Z 30; of_Z 20] !! i = Some r /\
    element [of_Z 10; of_Z 30; of_Z 20] (of_Z 1) = VNum r.
Proof.
  apply (reachable_cursor_in_range sample_data sample_streaming "a"
           {| sensorId := of_Z 1; index := of_Z 1; interval := 0%nat |}
           {| readings := [of_Z 10; of_Z 30; of_Z 20];
              zScores := [of_Z 0; of_Z 1; of_Z 0] |}).
  - vm_compute; reflexivity.
  - repeat constructor.
  - apply sample_streaming_reachable.
  - reflexivity.
  - reflexivity.
  - discriminate.
Defined.

(** [X10] at work: ["a"] connects to sensor 1 and its interval fires three
    times. *)
Lemma connect_then_first_pass_witness :
  Number (Some "1") = of_nat 1 /\
  exists st2 conn2,
    emissions sample_data "a" [1000; 3000; 5000] sample_live = Return st2 /\
    (fun e => e.1) <$> drop (length (emitted init)) (emitted st2) = replicate 3 "a" /\
    (fun e => timestamp e.2) <$> drop (length (emitted init)) (emitted st2)
      = [1000; 3000; 5000] /\
    (fun e => value e.2) <$> drop (length (emitted init)) (emitted st2)
      = VNum <$> [of_Z 10; of_Z 30; of_Z 20] /\
    (fun e => zscore e.2) <$> drop (length (emitted init)) (emitted st2)
      = (fun j => from_option VNum VUndefined ([of_Z 0; of_Z 1; of_Z 0] !! j)) <$> seq 0 3 /\
    conn_of st2 "a" = Some conn2 /\ index conn2 = of_Z 0.
Proof.
  split; [reflexivity|].
  apply (connect_then_first_pass sample_data init sample_live "a" (Some "1") 1
           {| readings := [of_Z 10; of_Z 30; of_Z 20];
              zScores := [of_Z 0; of_Z 1; of_Z 0] |}
           [1000; 3000; 5000]).
  - vm_compute; reflexivity.
  - vm_compute; reflexivity.
  - vm_compute; reflexivity.
  - reflexivity.
  - lia.
  - reflexivity.
  - simpl; lia.
  - reflexivity.
Defined.

End ApiLawExamples.

Module ChartLawExamples.
Import JS Chart ChartSpec ChartLaws.

(** [X15] at work: the first chart of [index.js], [<Chart sensorId="1" />],
    over a buffer of 50 points. *)
Lemma updateChart_default_width_witness :
  ToBoolean VUndefined = false /\
  visible {| sensorId := VStr "1"; x_ticks := VUndefined |} sample_state
    = last_n 20 (data sample_state) /\
  showing_last (render {| sensorId := VStr "1"; x_ticks := VUndefined |} sample_state)
    = VNum (of_Z 20).
Proof.
  split; [reflexivity|].
  apply (updateChart_default_width {| sensorId := VStr "1"; x_ticks := VUndefined |}
           sample_state).
  - reflexivity.
  - vm_compute; reflexivity.
Defined.

(** [X16] at work: a chart given [x-ticks="all"]. *)
Lemma updateChart_width_not_a_number_witness :
  ToNumber (VStr "all") = NaN /\
  gt_num (VStr "all") (of_Z MAX_POINTS_TO_STORE) = false /\
  xTicks {| sensorId := VStr "1"; x_ticks := VStr "all" |} sample_state = NaN /\
  visible {| sensorId := VStr "1"; x_ticks := VStr "all" |} sample_state
    = data sample_state.
Proof.
  split; [reflexivity|].
  apply (updateChart_width_not_a_number
           {| sensorId := VStr "1"; x_ticks := VStr "all" |} sample_state).
  - reflexivity.
  - reflexivity.
Defined.

(** [X17] at work: a chart given a width of -5. *)
Lemma updateChart_negative_width_witness :
  visible {| sensorId := VStr "1"; x_ticks := VNum (of_Z (-5)) |} sample_state = [] /\
  highestValueInView {| sensorId := VStr "1"; x_ticks := VNum (of_Z (-5)) |} sample_state
    = NegInf /\
  zLine {| sensorId := VStr "1"; x_ticks := VNum (of_Z (-5)) |} sample_state = [].
Proof.
  apply (updateChart_negative_width
           {| sensorId := VStr "1"; x_ticks := VNum (of_Z (-5)) |} sample_state (-5)).
  - lia.
  - reflexivity.
  - vm_compute; reflexivity.
Defined.

(** [X19] at work: a buffer whose only reading came without a [value]. *)
Lemma updateChart_value_not_a_number_witness :
  highestValueInView sample_props sample_gap = NaN /\
  (forall i q, visible sample_props sample_gap !! i = Some q ->
     ToBoolean (zscore q) = true ->
     value <$> zLine sample_props sample_gap !! i = Some (VNum NaN)).
Proof.
  apply (updateChart_value_not_a_number sample_props sample_gap
           {| timestamp := VNum (of_Z 1); value := VUndefined; zscore := VNum (of_Z 1) |}).
  - apply list_elem_of_here.
  - reflexivity.
Defined.

(** [X20] at work: the chart with [x-ticks="20"] over 50 points. *)
Lemma mounted_chart_shows_width_witness :
  componentDidMount sample_props =
    Return {| series := ["sensor"; "zline"];
              sensor := VStr "2";
              listening := "reading" :: SOCKETIO_ERRORS |} /\
  20 <= 50 /\
  length (visible sample_props sample_state)
    = Nat.min (length (data sample_state)) (Z.to_nat 20) /\
  (length (data sample_state) = 51%nat ->
     length (visible sample_props sample_state) = Z.to_nat 20).
Proof.
  split; [reflexivity|].
  apply (mounted_chart_shows_width sample_props sample_state
           {| series := ["sensor"; "zline"];
              sensor := VStr "2";
              listening := "reading" :: SOCKETIO_ERRORS |} 20).
  - reflexivity.
  - lia.
  - reflexivity.
  - vm_compute; lia.
Defined.

End ChartLawExamples.
